(** * Range min/max queries over a sampled curve: plot::ExplicitSingleValueCurve2D

    A shallow embedding of [src/plot_explicit_2d.cpp] and of the class
    declaration in [plot_explicit_2d.hpp].

    Modelling decisions.
    - [double] is kept abstract behind the class [Scalar]: the code only
      compares scalars ([<], [>], [!=]) and, at the two query boundaries,
      interpolates linearly.  Two instances are given: IEEE binary64
      ([float_scalar], Rocq's primitive floats) on which the repository's
      test cases are evaluated bit for bit, and the canonical rationals
      ([Qc_scalar]), which satisfy the order laws [ScalarOrder] under which
      the general theorems about minima and maxima are proved.
    - [std::optional<T>] is [option T]; [std::tuple<double, double>] is a
      pair; [std::vector] and the [Interval[]] array are lists.
    - Indices ([size_t], [int], [uint32_t]) are natural numbers.  The source
      computes [1 << k] on [int] and stores indices in [uint32_t]; both agree
      with the unbounded arithmetic used here for vectors of at most 2^30
      elements, which is the range this development speaks about.
    - Indexing a vector or the [intervals_] array past its end is undefined
      behaviour in C++.  Such a read is modelled as yielding whatever lies
      behind the array, given by the environment [OutOfRange]; every general
      theorem below is proved for all environments.  Which indices are read
      is recorded separately ([FillIntervals_y_reads], [IndexInterval_reads]).
    - [GetMinMaxOverIndexInterval] is recursive on the node index; it is
      modelled with fuel and the result type [outcome] tells a returned
      value from exhausted fuel.  The theorems prove that it returns. *)

From Stdlib Require Import ZArith PArith NArith QArith Qcanon Bool Lia.
From Stdlib Require Import Floats.
From stdpp Require Import base list.

(** ** Scalars *)

(** The operations the source applies to [double]. *)
Class Scalar := {
  real : Type;
  lt_b : real -> real -> bool;   (* a < b *)
  eq_b : real -> real -> bool;   (* a == b *)
  r_add : real -> real -> real;
  r_sub : real -> real -> real;
  r_mul : real -> real -> real;
  r_div : real -> real -> real
}.

(** [lt_b] is a strict weak order: what [<] is on doubles other than NaN. *)
Class ScalarOrder (S : Scalar) : Prop := {
  lt_b_irrefl : forall a, lt_b a a = false;
  lt_b_trans : forall a b c, lt_b a b = true -> lt_b b c = true -> lt_b a c = true;
  lt_b_negtrans : forall a b c, lt_b a b = false -> lt_b b c = false -> lt_b a c = false
}.

(** IEEE 754 binary64, the [double] of the source. *)
Definition float_scalar : Scalar := {|
  real := float;
  lt_b := PrimFloat.ltb;
  eq_b := PrimFloat.eqb;
  r_add := PrimFloat.add;
  r_sub := PrimFloat.sub;
  r_mul := PrimFloat.mul;
  r_div := PrimFloat.div
|}.

Definition Qc_ltb (a b : Qc) : bool :=
  match Qccompare a b with Lt => true | _ => false end.

Definition Qc_eqb (a b : Qc) : bool := Qeq_bool a b.

(** Exact rational arithmetic. *)
Definition Qc_scalar : Scalar := {|
  real := Qc;
  lt_b := Qc_ltb;
  eq_b := Qc_eqb;
  r_add := Qcplus;
  r_sub := Qcminus;
  r_mul := Qcmult;
  r_div := Qcdiv
|}.

(** ** Data model *)

(** The result of a call: a value, or the model's recursion budget ran out. *)
Inductive outcome (A : Type) : Type :=
| Returned (a : A)
| OutOfFuel.
Arguments Returned {A} a.
Arguments OutOfFuel {A}.

Section Curve.

Context {S : Scalar}.

(** [std::optional<std::tuple<double, double>>]: a (min, max) pair or nothing. *)
Definition MinMax : Type := option (real * real).

(** [struct Interval] of the header. *)
Record Interval : Type := mkInterval {
  lo_idx : nat;        (* lower bound (inclusive); index in y_values_ *)
  hi_idx : nat;        (* upper bound (inclusive); index in y_values_ *)
  min_max : MinMax     (* min and max value of the interval *)
}.

(** What a read past the end of each array yields. *)
Record OutOfRange : Type := mkOutOfRange {
  oob_x : nat -> real;
  oob_y : nat -> option real;
  oob_interval : nat -> Interval
}.

(** The private members of the class. *)
Record ExplicitSingleValueCurve2D : Type := mkCurve {
  x_values_ : list real;
  y_values_ : list (option real);
  intervals_ : list Interval
}.

Context (env : OutOfRange).

(** [x_values_[i]], [y_values_[i]] and [intervals_[i]]. *)
Definition read_x (xs : list real) (i : nat) : real :=
  match xs !! i with Some v => v | None => oob_x env i end.

Definition read_y (ys : list (option real)) (i : nat) : option real :=
  match ys !! i with Some v => v | None => oob_y env i end.

Definition read_interval (ivs : list Interval) (i : nat) : Interval :=
  match ivs !! i with Some v => v | None => oob_interval env i end.

(** [std::min(a, b)] is [(b < a) ? b : a]; [std::max(a, b)] is [(a < b) ? b : a]. *)
Definition std_min (a b : real) : real := if lt_b b a then b else a.
Definition std_max (a b : real) : real := if lt_b a b then b else a.

(** ** CeilingLog2 *)

(** The loop of [CeilingLog2] on a non-zero [i], by the bits of [i] from the
    lowest: each round tests [i > 1 && (i & 1)], shifts [i] right and
    increments [k]; it ends after the round in which [i] was 1. *)
Fixpoint CeilingLog2_loop (i : positive) (k : nat) (is_power_of_2 : bool) : nat * bool :=
  match i with
  | xH => (Datatypes.S k, is_power_of_2)
  | xO i' => CeilingLog2_loop i' (Datatypes.S k) is_power_of_2
  | xI i' => CeilingLog2_loop i' (Datatypes.S k) false
  end.

(** [static int CeilingLog2(size_t i)].  For [i = 0] the source returns -1;
    the constructor asserts a non-empty vector first, and 0 stands for it here. *)
Definition CeilingLog2 (i : nat) : nat :=
  match N.of_nat i with
  | N0 => 0
  | Npos p =>
      let '(k, is_power_of_2) := CeilingLog2_loop p 0 true in
      if is_power_of_2 then k - 1 else k
  end.

(** ** Gap-aware combinators *)

(** [static std::optional<double> GetOneOf(a, b, comp_func)]. *)
Definition GetOneOf (a b : option real) (comp_func : real -> real -> real) : option real :=
  match a, b with
  | Some a', Some b' => Some (comp_func a' b')
  | Some a', None => Some a'
  | None, Some b' => Some b'
  | None, None => None
  end.

(** [static std::optional<std::tuple<double, double>> GetMinMax(a, b)]. *)
Definition GetMinMax (a b : option real) : MinMax :=
  match a, b with
  | Some a', Some b' => Some (std_min a' b', std_max a' b')
  | Some a', None => Some (a', a')
  | None, Some b' => Some (b', b')
  | None, None => None
  end.

(** The four-way merge of two optional (min, max) pairs that the source
    writes out twice: for the two children of a node in [FillIntervals]
    and for the two partial results in [GetMinMaxOverIndexInterval]. *)
Definition merge_min_max (p1 p2 : MinMax) : MinMax :=
  match p1, p2 with
  | Some (min1, max1), Some (min2, max2) => Some (std_min min1 min2, std_max max1 max2)
  | Some _, None => p1
  | None, Some _ => p2
  | None, None => None
  end.

(** ** FillIntervals *)

(** [(1 << layer) - 1]. *)
Definition layer_start (layer : nat) : nat := Nat.shiftl 1 layer - 1.
(** [layer_start + (1 << layer)]. *)
Definition layer_end (layer : nat) : nat := layer_start layer + Nat.shiftl 1 layer.

(** One round of the loop over the lowest layer; the state is the array and
    [interval_start]. *)
Definition leaf_step (ys : list (option real)) (k layer : nat)
    (st : list Interval * nat) (i : nat) : list Interval * nat :=
  let '(ivs, interval_start) := st in
  let lo := interval_start in
  let hi := interval_start + Nat.shiftl 1 (k - layer) - 1 in
  let mm := GetMinMax (read_y ys lo) (read_y ys hi) in
  (<[i := mkInterval lo hi mm]> ivs, hi + 1).

(** One round of the loop over a higher layer. *)
Definition node_step (k layer : nat)
    (st : list Interval * nat) (i : nat) : list Interval * nat :=
  let '(ivs, interval_start) := st in
  let child_1 := 2 * i + 1 in
  let child_2 := 2 * i + 2 in
  let lo := interval_start in
  let hi := interval_start + Nat.shiftl 1 (k - layer) - 1 in
  let mm := merge_min_max (min_max (read_interval ivs child_1))
                          (min_max (read_interval ivs child_2)) in
  (<[i := mkInterval lo hi mm]> ivs, hi + 1).

(** [for (int i = layer_start; i < layer_end; ++i)], with [interval_start = 0]. *)
Definition layer_indices (layer : nat) : list nat :=
  seq (layer_start layer) (layer_end layer - layer_start layer).

Definition fill_lowest_layer (ys : list (option real)) (k : nat)
    (ivs : list Interval) : list Interval :=
  let layer := k - 1 in
  fst (fold_left (leaf_step ys k layer) (layer_indices layer) (ivs, 0)).

Definition fill_layer (k : nat) (ivs : list Interval) (layer : nat) : list Interval :=
  fst (fold_left (node_step k layer) (layer_indices layer) (ivs, 0)).

(** [for (int layer = k - 2; layer >= 0; --layer)]. *)
Definition higher_layers (k : nat) : list nat := rev (seq 0 (k - 1)).

(** [void FillIntervals()], on the array allocated by the constructor. *)
Definition FillIntervals (ys : list (option real)) (ivs : list Interval) : list Interval :=
  let k := CeilingLog2 (length ys) in
  fold_left (fill_layer k) (higher_layers k) (fill_lowest_layer ys k ivs).

(** The indices at which [FillIntervals] reads [y_values_]: the lowest layer
    reads [y_values_[interval.lo_idx]] and [y_values_[interval.hi_idx]]
    of every interval it has just set. *)
Definition FillIntervals_y_reads (ys : list (option real)) (ivs : list Interval) : list nat :=
  let k := CeilingLog2 (length ys) in
  let filled := fill_lowest_layer ys k ivs in
  flat_map (fun i => [lo_idx (read_interval filled i); hi_idx (read_interval filled i)])
           (layer_indices (k - 1)).

(** ** Constructor *)

(** The loop of assertions [x_values[i] > x_values[i-1]]. *)
Fixpoint strictly_increasing (xs : list real) : bool :=
  match xs with
  | [] => true
  | x0 :: rest =>
      match rest with
      | [] => true
      | x1 :: _ => lt_b x0 x1 && strictly_increasing rest
      end
  end.

(** [(1 << k) - 1] for [k = CeilingLog2(y_values_->size())]. *)
Definition num_intervals (n : nat) : nat := Nat.shiftl 1 (CeilingLog2 n) - 1.

(** A value-initialised [Interval]. *)
Definition Interval_zero : Interval := mkInterval 0 0 None.

(** The constructor; [None] when a [PLOT_ASSERT] fails and the program aborts. *)
Definition new_curve (xs : list real) (ys : list (option real))
    : option ExplicitSingleValueCurve2D :=
  if negb (length xs =? length ys) then None
  else if (length xs =? 0) then None
  else if negb (strictly_increasing xs) then None
  else
    let ivs := replicate (num_intervals (length ys)) Interval_zero in
    Some (mkCurve xs ys (if 1 <? length ys then FillIntervals ys ivs else ivs)).

(** ** GetMinMaxOverIndexInterval *)

Fixpoint GetMinMaxOverIndexInterval (fuel : nat) (c : ExplicitSingleValueCurve2D)
    (lo hi interval_idx : nat) : outcome MinMax :=
  match fuel with
  | 0 => OutOfFuel
  | Datatypes.S fuel' =>
      let iv := read_interval (intervals_ c) interval_idx in
      if (lo_idx iv =? lo) && (hi_idx iv =? hi) then Returned (min_max iv)
      else if lo =? hi then
        match read_y (y_values_ c) lo with
        | Some v => Returned (Some (v, v))
        | None => Returned None
        end
      else
        let child1_idx := 2 * interval_idx + 1 in
        let child2_idx := 2 * interval_idx + 2 in
        let child1 := read_interval (intervals_ c) child1_idx in
        let child2 := read_interval (intervals_ c) child2_idx in
        if (lo_idx child1 <=? lo) && (hi <=? hi_idx child1) then
          GetMinMaxOverIndexInterval fuel' c lo hi child1_idx
        else if (lo_idx child2 <=? lo) && (hi <=? hi_idx child2) then
          GetMinMaxOverIndexInterval fuel' c lo hi child2_idx
        else
          match GetMinMaxOverIndexInterval fuel' c lo (hi_idx child1) child1_idx with
          | OutOfFuel => OutOfFuel
          | Returned partial1 =>
              match GetMinMaxOverIndexInterval fuel' c (lo_idx child2) hi child2_idx with
              | OutOfFuel => OutOfFuel
              | Returned partial2 => Returned (merge_min_max partial1 partial2)
              end
          end
  end.

(** The indices of [intervals_] read by that call, in the order of the reads. *)
Fixpoint IndexInterval_reads (fuel : nat) (c : ExplicitSingleValueCurve2D)
    (lo hi interval_idx : nat) : list nat :=
  match fuel with
  | 0 => []
  | Datatypes.S fuel' =>
      let iv := read_interval (intervals_ c) interval_idx in
      if (lo_idx iv =? lo) && (hi_idx iv =? hi) then [interval_idx]
      else if lo =? hi then [interval_idx]
      else
        let child1_idx := 2 * interval_idx + 1 in
        let child2_idx := 2 * interval_idx + 2 in
        let child1 := read_interval (intervals_ c) child1_idx in
        let child2 := read_interval (intervals_ c) child2_idx in
        if (lo_idx child1 <=? lo) && (hi <=? hi_idx child1) then
          interval_idx :: child1_idx :: IndexInterval_reads fuel' c lo hi child1_idx
        else if (lo_idx child2 <=? lo) && (hi <=? hi_idx child2) then
          interval_idx :: child1_idx :: child2_idx
            :: IndexInterval_reads fuel' c lo hi child2_idx
        else
          interval_idx :: child1_idx :: child2_idx
            :: IndexInterval_reads fuel' c lo (hi_idx child1) child1_idx
            ++ IndexInterval_reads fuel' c (lo_idx child2) hi child2_idx
  end.

(** ** GetMinMaxOverDomainInterval *)

(** [std::lower_bound(begin, end, v) - begin] on a sorted vector: the index
    of the first element that is not less than [v]. *)
Fixpoint lower_bound (xs : list real) (v : real) : nat :=
  match xs with
  | [] => 0
  | x :: rest => if lt_b x v then Datatypes.S (lower_bound rest v) else 0
  end.

(** [std::upper_bound(begin, end, v) - begin] on a sorted vector: the index
    of the first element that [v] is less than. *)
Fixpoint upper_bound (xs : list real) (v : real) : nat :=
  match xs with
  | [] => 0
  | x :: rest => if lt_b v x then 0 else Datatypes.S (upper_bound rest v)
  end.

(** [a + (x - xa) / (xb - xa) * (b - a)], as the source parenthesises it. *)
Definition interpolate (xa xb x a b : real) : real :=
  r_add a (r_mul (r_div (r_sub x xa) (r_sub xb xa)) (r_sub b a)).

(** The interpolated Y value at [xmin], lines 209-218. *)
Definition lo_interp (xs : list real) (ys : list (option real))
    (xmin : real) (lo_idx : nat) : option real :=
  if lt_b xmin (read_x xs lo_idx) && (0 <? lo_idx) then
    match read_y ys lo_idx, read_y ys (lo_idx - 1) with
    | Some y1, Some y0 =>
        if negb (eq_b (read_x xs (lo_idx - 1)) (read_x xs lo_idx)) then
          Some (interpolate (read_x xs (lo_idx - 1)) (read_x xs lo_idx) xmin y0 y1)
        else None
    | _, _ => None
    end
  else None.

(** The interpolated Y value at [xmax], lines 220-230. *)
Definition hi_interp (xs : list real) (ys : list (option real))
    (xmax : real) (hi_idx : nat) : option real :=
  if (hi_idx <? length xs - 1)
     && negb (eq_b (read_x xs hi_idx) xmax)
     && lt_b xmax (read_x xs (hi_idx + 1)) then
    match read_y ys hi_idx with
    | Some y0 =>
        if negb (eq_b (read_x xs (hi_idx + 1)) (read_x xs hi_idx)) then
          match read_y ys (hi_idx + 1) with
          | Some y1 =>
              Some (interpolate (read_x xs hi_idx) (read_x xs (hi_idx + 1)) xmax y0 y1)
          | None => None
          end
        else None
    | None => None
    end
  else None.

(** Lines 239-267: the interior result merged with the two interpolations. *)
Definition merge_with_interp (lo_i hi_i : option real) (inside : MinMax) : MinMax :=
  match inside with
  | Some (in_min, in_max) =>
      let min_interp := GetOneOf lo_i hi_i std_min in
      let max_interp := GetOneOf lo_i hi_i std_max in
      let actual_min := GetOneOf min_interp (Some in_min) std_min in
      let actual_max := GetOneOf max_interp (Some in_max) std_max in
      match actual_min, actual_max with
      | Some mn, Some mx => Some (mn, mx)
      | Some mn, None => Some (mn, mn)
      | None, Some mx => Some (mx, mx)
      | None, None => None
      end
  | None => GetMinMax lo_i hi_i
  end.

(** The recursion budget given to the index query: one more than the number
    of nodes, which no descent through the tree can use up. *)
Definition query_fuel (c : ExplicitSingleValueCurve2D) : nat :=
  Datatypes.S (length (intervals_ c)).

Definition GetMinMaxOverDomainInterval (c : ExplicitSingleValueCurve2D)
    (xmin xmax : real) : outcome MinMax :=
  let xs := x_values_ c in
  let ys := y_values_ c in
  let lo_bound := lower_bound xs xmin in
  if lo_bound =? length xs then Returned None
  else
    let hi_bound := upper_bound xs xmax in
    if hi_bound =? 0 then Returned None
    else
      let lo_idx := lo_bound in
      let hi_idx := hi_bound - 1 in
      let lo_i := lo_interp xs ys xmin lo_idx in
      let hi_i := hi_interp xs ys xmax hi_idx in
      let inside :=
        if lo_idx <=? hi_idx
        then GetMinMaxOverIndexInterval (query_fuel c) c lo_idx hi_idx 0
        else Returned None in
      match inside with
      | OutOfFuel => OutOfFuel
      | Returned min_max_inside_interval =>
          Returned (merge_with_interp lo_i hi_i min_max_inside_interval)
      end.

(** Construct a curve and query it, as every test case does; the outer
    [None] is an aborted construction. *)
Definition plot_query (xs : list real) (ys : list (option real))
    (xmin xmax : real) : option (outcome MinMax) :=
  match new_curve xs ys with
  | Some c => Some (GetMinMaxOverDomainInterval c xmin xmax)
  | None => None
  end.

(** ** The public operations as state transformers

    Every public member function other than the constructor is declared
    [const]: it answers from the object and leaves it as it was. *)

Inductive operation : Type :=
| OpGetMinMaxOverDomainInterval (xmin xmax : real)
| OpGetXValues
| OpGetYValues.

Inductive answer : Type :=
| AnsMinMax (r : outcome MinMax)
| AnsXValues (xs : list real)
| AnsYValues (ys : list (option real)).

Definition perform (c : ExplicitSingleValueCurve2D) (op : operation)
    : ExplicitSingleValueCurve2D * answer :=
  match op with
  | OpGetMinMaxOverDomainInterval xmin xmax =>
      (c, AnsMinMax (GetMinMaxOverDomainInterval c xmin xmax))
  | OpGetXValues => (c, AnsXValues (x_values_ c))
  | OpGetYValues => (c, AnsYValues (y_values_ c))
  end.

(** The object after a sequence of operations. *)
Definition perform_all (c : ExplicitSingleValueCurve2D) (ops : list operation)
    : ExplicitSingleValueCurve2D :=
  fold_left (fun c' op => fst (perform c' op)) ops c.

(** ** Reference definitions the code is compared with *)

(** A single sample as a (min, max) pair. *)
Definition single (v : option real) : MinMax :=
  match v with
  | Some y => Some (y, y)
  | None => None
  end.

(** The linear scan: running minimum and maximum of the values that are
    present, from the first sample to the last. *)
Definition linear_scan (vals : list (option real)) : MinMax :=
  fold_left (fun acc v => merge_min_max acc (single v)) vals None.

(** The samples at indices [lo .. hi], both inclusive. *)
Definition index_range (ys : list (option real)) (lo hi : nat) : list (option real) :=
  take (hi + 1 - lo) (drop lo ys).

(** The interior part of a domain query: the linear scan of the samples
    between the two found indices, when there is one. *)
Definition interior_scan (xs : list real) (ys : list (option real))
    (xmin xmax : real) : MinMax :=
  if lower_bound xs xmin <=? upper_bound xs xmax - 1
  then linear_scan (index_range ys (lower_bound xs xmin) (upper_bound xs xmax - 1))
  else None.


(** [m] is a least, [M] a greatest of the values present in [vals]. *)
Definition is_min_of (vals : list (option real)) (m : real) : Prop :=
  In (Some m) vals /\ forall v, In (Some v) vals -> lt_b v m = false.

Definition is_max_of (vals : list (option real)) (M : real) : Prop :=
  In (Some M) vals /\ forall v, In (Some v) vals -> lt_b M v = false.

Definition all_gaps (vals : list (option real)) : Prop :=
  forall v, In v vals -> v = None.

(** [r] is the (min, max) of the values present in [vals], or nothing
    exactly when none is present. *)
Definition min_max_of (vals : list (option real)) (r : MinMax) : Prop :=
  match r with
  | Some (m, M) => is_min_of vals m /\ is_max_of vals M
  | None => all_gaps vals
  end.

(** [node] is the gap-aware combination of the stored values [child1] and
    [child2]: componentwise min of the minima and max of the maxima when
    both are present, the one that is present when only one is, and
    nothing when neither is. *)
Definition gap_aware_combination (node child1 child2 : MinMax) : Prop :=
  match child1, child2 with
  | Some (min1, max1), Some (min2, max2) =>
      node = Some (std_min min1 min2, std_max max1 max2)
  | Some p, None => node = Some p
  | None, Some p => node = Some p
  | None, None => node = None
  end.

(** The samples [f lo], ..., [f (lo + cnt - 1)] merged from the left end. *)
Fixpoint scan_from (f : nat -> option real) (lo cnt : nat) : MinMax :=
  match cnt with
  | 0 => None
  | Datatypes.S cnt' => merge_min_max (single (f lo)) (scan_from f (Datatypes.S lo) cnt')
  end.

(** What the node at offset [j] of the layer of height [h] aggregates: the
    samples [j * 2^h .. (j + 1) * 2^h - 1], merged pairwise up the tree. *)
Fixpoint subtree_min_max (f : nat -> option real) (h j : nat) : MinMax :=
  match h with
  | 0 => single (f j)
  | Datatypes.S h' =>
      merge_min_max (subtree_min_max f h' (2 * j)) (subtree_min_max f h' (2 * j + 1))
  end.

(** The node a round of the lowest layer writes. *)
Definition leaf_node (ys : list (option real)) (w : nat)
    (ivs : list Interval) (st i : nat) : Interval :=
  mkInterval st (st + w - 1) (GetMinMax (read_y ys st) (read_y ys (st + w - 1))).

(** The node a round of a higher layer writes. *)
Definition inner_node (w : nat) (ivs : list Interval) (st i : nat) : Interval :=
  mkInterval st (st + w - 1)
    (merge_min_max (min_max (read_interval ivs (2 * i + 1)))
                   (min_max (read_interval ivs (2 * i + 2)))).

(** The node that [FillIntervals] stores at offset [j] of layer [L], of [k] layers. *)
Definition node_at (ys : list (option real)) (k L j : nat) : Interval :=
  mkInterval (j * 2 ^ (k - L)) (j * 2 ^ (k - L) + 2 ^ (k - L) - 1)
             (subtree_min_max (read_y ys) (k - L) j).

(** The layers [Lmin .. k - 1] of the array hold their nodes. *)
Definition layers_filled (ys : list (option real)) (k Lmin : nat)
    (ivs : list Interval) : Prop :=
  forall L j, Lmin <= L -> L < k -> j < 2 ^ L ->
    ivs !! (2 ^ L - 1 + j) = Some (node_at ys k L j).

End Curve.

Arguments mkInterval {S} lo_idx hi_idx min_max.
Arguments mkOutOfRange {S} oob_x oob_y oob_interval.
Arguments mkCurve {S} x_values_ y_values_ intervals_.

(** ** Sample data *)

(** Memory in which every byte past the end of an array is zero: a read
    past the end yields 0.0, an empty optional, or an [Interval] with both
    indices 0 and no (min, max). *)
Definition zeroed_memory_float : @OutOfRange float_scalar :=
  @mkOutOfRange float_scalar (fun _ => 0%float) (fun _ => None) (fun _ => Interval_zero).

Definition zeroed_memory_Qc : @OutOfRange Qc_scalar :=
  @mkOutOfRange Qc_scalar (fun _ => Q2Qc 0) (fun _ => None) (fun _ => Interval_zero).

(** The curve of a single sample, x = [0], y = [1]: the constructor
    allocates no interval and skips [FillIntervals]. *)
Definition single_sample_curve : @ExplicitSingleValueCurve2D float_scalar :=
  @mkCurve float_scalar [0%float] [Some 1%float] [].

(** The three samples of the test cases as rationals. *)
Definition xs_012_Qc : list (@real Qc_scalar) := [Q2Qc 0; Q2Qc 1; Q2Qc 2].
Definition ys_012_Qc : list (option (@real Qc_scalar)) :=
  [Some (Q2Qc 0); Some (Q2Qc 1); Some (Q2Qc 2)].

(** The curve the constructor builds from them. *)
Definition curve_012_Qc : @ExplicitSingleValueCurve2D Qc_scalar :=
  Eval vm_compute in
    match @new_curve Qc_scalar zeroed_memory_Qc xs_012_Qc ys_012_Qc with
    | Some c => c
    | None => @mkCurve Qc_scalar [] [] []
    end.



(** ** Accesses of FillIntervals to the array of nodes *)

(** The indices of [intervals_] that [FillIntervals] writes, in the order
    of the writes: the lowest layer, then the layers above it from
    [k - 2] down to 0, for a vector of [n] samples. *)
Definition FillIntervals_writes (n : nat) : list nat :=
  let k := CeilingLog2 n in
  layer_indices (k - 1) ++ flat_map layer_indices (higher_layers k).

(** The indices of [intervals_] that the loops over the higher layers
    read: [child_1] and [child_2] of every node they write. *)
Definition FillIntervals_child_reads (n : nat) : list nat :=
  let k := CeilingLog2 n in
  flat_map (fun layer => flat_map (fun i => [2 * i + 1; 2 * i + 2]) (layer_indices layer))
           (higher_layers k).

(** Memory behind the arrays that holds something else than zeroes. *)
Definition other_memory_Qc : @OutOfRange Qc_scalar :=
  @mkOutOfRange Qc_scalar (fun _ => Q2Qc 7) (fun i => Some (Q2Qc (-5)))
    (fun i => @mkInterval Qc_scalar 0 i (Some (Q2Qc (-9), Q2Qc 9))).

(** The curve the constructor builds from the three samples with that memory. *)
Definition curve_012_other_Qc : @ExplicitSingleValueCurve2D Qc_scalar :=
  Eval vm_compute in
    match @new_curve Qc_scalar other_memory_Qc xs_012_Qc ys_012_Qc with
    | Some c => c
    | None => @mkCurve Qc_scalar [] [] []
    end.

(** * Properties *)

(** ** Powers of two and CeilingLog2 *)

Lemma shiftl_1_pow2 (n : nat) : Nat.shiftl 1 n = 2 ^ n.
Proof. rewrite Nat.shiftl_1_l. reflexivity. Qed.

Lemma pow2_pos (n : nat) : 0 < 2 ^ n.
Proof. apply Nat.neq_0_lt_0, Nat.pow_nonzero. discriminate. Qed.

Lemma layer_start_eq (L : nat) : layer_start L = 2 ^ L - 1.
Proof. unfold layer_start. rewrite shiftl_1_pow2. reflexivity. Qed.

Lemma layer_indices_eq (L : nat) : layer_indices L = seq (2 ^ L - 1) (2 ^ L).
Proof.
  unfold layer_indices, layer_end. rewrite layer_start_eq, shiftl_1_pow2.
  f_equal. lia.
Qed.

(** The loop adds the number of bits of [i] to [k] and clears the flag
    when a bit other than the highest is set. *)
Lemma CeilingLog2_loop_acc (p : positive) (k : nat) (b : bool) :
  CeilingLog2_loop p k b
  = (k + fst (CeilingLog2_loop p 0 true), b && snd (CeilingLog2_loop p 0 true)).
Proof.
  revert k b. induction p as [p IH | p IH |]; intros k b; simpl.
  - rewrite (IH (Datatypes.S k) false), (IH 1 false). simpl.
    rewrite andb_false_r. f_equal. lia.
  - rewrite (IH (Datatypes.S k) b), (IH 1 true). simpl. f_equal. lia.
  - rewrite andb_true_r. f_equal. lia.
Qed.

Lemma CeilingLog2_loop_bounds (p : positive) :
  let r := CeilingLog2_loop p 0 true in
  1 <= fst r /\
  2 ^ (fst r - 1) <= Pos.to_nat p < 2 ^ fst r /\
  (snd r = true <-> Pos.to_nat p = 2 ^ (fst r - 1)).
Proof.
  induction p as [p IH | p IH |]; simpl.
  - rewrite CeilingLog2_loop_acc. simpl.
    destruct IH as (H1 & [H2 H3] & _).
    set (r := CeilingLog2_loop p 0 true) in *.
    replace (fst r - 0) with (Datatypes.S (fst r - 1)) by lia.
    rewrite Pos2Nat.inj_xI. simpl Nat.pow.
    assert (Hp := pow2_pos (fst r - 1)).
    replace (2 ^ fst r) with (2 * 2 ^ (fst r - 1)) in *
      by (replace (fst r) with (Datatypes.S (fst r - 1)) at 2 by lia; reflexivity).
    repeat split; try lia; try discriminate.
  - rewrite CeilingLog2_loop_acc. simpl.
    destruct IH as (H1 & [H2 H3] & H4).
    set (r := CeilingLog2_loop p 0 true) in *.
    replace (fst r - 0) with (Datatypes.S (fst r - 1)) by lia.
    rewrite Pos2Nat.inj_xO. simpl Nat.pow.
    assert (Hp := pow2_pos (fst r - 1)).
    replace (2 ^ fst r) with (2 * 2 ^ (fst r - 1)) in *
      by (replace (fst r) with (Datatypes.S (fst r - 1)) at 2 by lia; reflexivity).
    repeat split; try lia.
    + intros E. apply H4 in E. lia.
    + intros E. apply H4. lia.
  - repeat split; simpl; try lia.
Qed.

(** [CeilingLog2 n] is the least [k] with [n <= 2^k]. *)
Lemma CeilingLog2_upper (n : nat) : 1 <= n -> n <= 2 ^ CeilingLog2 n.
Proof.
  intros Hn. unfold CeilingLog2.
  destruct (N.of_nat n) as [| p] eqn:E; [lia |].
  assert (Hp : Pos.to_nat p = n).
  { apply (f_equal N.to_nat) in E. rewrite Nat2N.id in E. simpl in E. lia. }
  destruct (CeilingLog2_loop_bounds p) as (H1 & [H2 H3] & H4).
  destruct (CeilingLog2_loop p 0 true) as [k b]. simpl in *.
  destruct b; [| lia].
  assert (Pos.to_nat p = 2 ^ (k - 1)) by (apply H4; reflexivity). lia.
Qed.

Lemma CeilingLog2_lower (n : nat) : 2 <= n -> 2 ^ (CeilingLog2 n - 1) < n.
Proof.
  intros Hn. unfold CeilingLog2.
  destruct (N.of_nat n) as [| p] eqn:E; [lia |].
  assert (Hp : Pos.to_nat p = n).
  { apply (f_equal N.to_nat) in E. rewrite Nat2N.id in E. simpl in E. lia. }
  destruct (CeilingLog2_loop_bounds p) as (H1 & [H2 H3] & H4).
  destruct (CeilingLog2_loop p 0 true) as [k b]. simpl in *.
  destruct b.
  - assert (E2 : Pos.to_nat p = 2 ^ (k - 1)) by (apply H4; reflexivity).
    destruct (k - 1) as [| k'] eqn:Ek; [simpl in E2; lia |].
    simpl. replace (k' - 0) with k' by lia.
    rewrite <- Hp, E2. simpl. assert (Hp' := pow2_pos k'). lia.
  - destruct (Nat.eq_dec (Pos.to_nat p) (2 ^ (k - 1))) as [E2 | E2].
    + apply H4 in E2. discriminate.
    + lia.
Qed.

Lemma CeilingLog2_ge_1 (n : nat) : 2 <= n -> 1 <= CeilingLog2 n.
Proof.
  intros Hn. assert (H := CeilingLog2_upper n ltac:(lia)).
  destruct (CeilingLog2 n); [simpl in H; lia | lia].
Qed.

(** A single sample needs no layer. *)
Lemma CeilingLog2_1 : CeilingLog2 1 = 0.
Proof. reflexivity. Qed.

(** ** The loops of FillIntervals *)

Section Loops.

Context {S : Scalar} (env : OutOfRange).

Lemma read_interval_lookup (ivs : list Interval) (i : nat) (iv : Interval) :
  ivs !! i = Some iv -> read_interval env ivs i = iv.
Proof. unfold read_interval. intros ->. reflexivity. Qed.

Lemma read_interval_agree (ivs1 ivs2 : list Interval) (i : nat) :
  ivs1 !! i = ivs2 !! i -> read_interval env ivs1 i = read_interval env ivs2 i.
Proof. unfold read_interval. intros ->. reflexivity. Qed.

Lemma read_y_lookup (ys : list (option real)) (i : nat) (v : option real) :
  ys !! i = Some v -> read_y env ys i = v.
Proof. unfold read_y. intros ->. reflexivity. Qed.

(** A loop that writes one node per index and advances [interval_start] by
    a fixed width.  The node written at [i] may depend on the array only
    through entries from [e] on, which the loop does not write. *)
Section WriteLoop.

Variable mk : list Interval -> nat -> nat -> Interval.
Variable w b e : nat.
Variable step : list Interval * nat -> nat -> list Interval * nat.

Hypothesis step_eq : forall ivs st i,
  step (ivs, st) i = (<[i := mk ivs st i]> ivs, st + w).
Hypothesis frame : forall ivs1 ivs2 st i,
  b <= i -> (forall m, e <= m -> ivs1 !! m = ivs2 !! m) -> mk ivs1 st i = mk ivs2 st i.

Lemma write_loop_spec (c s : nat) (ivs : list Interval) (st : nat) :
  b <= s -> s + c <= e -> s + c <= length ivs ->
  let r := fold_left step (seq s c) (ivs, st) in
  length (fst r) = length ivs /\
  snd r = st + c * w /\
  (forall i, i < s \/ s + c <= i -> fst r !! i = ivs !! i) /\
  (forall j, j < c -> fst r !! (s + j) = Some (mk ivs (st + j * w) (s + j))).
Proof.
  revert s ivs st. induction c as [| c IH]; intros s ivs st Hb He Hlen; simpl.
  - repeat split; auto; intros; lia.
  - rewrite step_eq.
    destruct (IH (Datatypes.S s) (<[s := mk ivs st s]> ivs) (st + w))
      as (IH1 & IH2 & IH3 & IH4); [lia | lia | rewrite length_insert; lia |].
    rewrite length_insert in IH1.
    repeat split.
    + exact IH1.
    + rewrite IH2. lia.
    + intros i Hi. rewrite IH3 by lia. apply list_lookup_insert_ne. lia.
    + intros [| j] Hj.
      * rewrite Nat.add_0_r, IH3 by lia. simpl.
        rewrite Nat.add_0_r. apply list_lookup_insert_eq. lia.
      * replace (s + Datatypes.S j) with (Datatypes.S s + j) by lia.
        rewrite IH4 by lia. f_equal.
        replace (st + w + j * w) with (st + Datatypes.S j * w) by lia.
        apply frame; [lia |].
        intros m Hm. apply list_lookup_insert_ne. lia.
Qed.

End WriteLoop.

Lemma leaf_step_eq ys k layer ivs st i :
  leaf_step env ys k layer (ivs, st) i
  = (<[i := leaf_node env ys (2 ^ (k - layer)) ivs st i]> ivs, st + 2 ^ (k - layer)).
Proof.
  unfold leaf_step, leaf_node. rewrite shiftl_1_pow2.
  assert (H := pow2_pos (k - layer)). f_equal. lia.
Qed.

Lemma node_step_eq k layer ivs st i :
  node_step env k layer (ivs, st) i
  = (<[i := inner_node env (2 ^ (k - layer)) ivs st i]> ivs, st + 2 ^ (k - layer)).
Proof.
  unfold node_step, inner_node. rewrite shiftl_1_pow2.
  assert (H := pow2_pos (k - layer)). f_equal. lia.
Qed.

Lemma subtree_min_max_S (f : nat -> option real) (h j : nat) :
  subtree_min_max f (Datatypes.S h) j
  = merge_min_max (subtree_min_max f h (2 * j)) (subtree_min_max f h (2 * j + 1)).
Proof. reflexivity. Qed.

Lemma GetMinMax_single (a b : option real) :
  GetMinMax a b = merge_min_max (single a) (single b).
Proof. destruct a, b; reflexivity. Qed.

(** The lowest layer after its loop. *)
Lemma fill_lowest_layer_spec (ys : list (option real)) (k : nat) (ivs : list Interval) :
  1 <= k -> length ivs = 2 ^ k - 1 ->
  let ivs' := fill_lowest_layer env ys k ivs in
  length ivs' = length ivs /\
  (forall i, i < 2 ^ (k - 1) - 1 -> ivs' !! i = ivs !! i) /\
  layers_filled env ys k (k - 1) ivs'.
Proof.
  intros Hk Hlen. unfold fill_lowest_layer. rewrite layer_indices_eq.
  assert (Hp := pow2_pos (k - 1)).
  assert (E2 : 2 ^ k = 2 * 2 ^ (k - 1)).
  { replace k with (Datatypes.S (k - 1)) at 1 by lia. reflexivity. }
  destruct (write_loop_spec (leaf_node env ys (2 ^ (k - (k - 1)))) (2 ^ (k - (k - 1)))
              0 (2 ^ k - 1) (leaf_step env ys k (k - 1))
              (leaf_step_eq ys k (k - 1))
              ltac:(intros; reflexivity)
              (2 ^ (k - 1)) (2 ^ (k - 1) - 1) ivs 0)
    as (H1 & _ & H3 & H4); [lia | lia | lia |].
  cbv zeta. repeat split.
  - exact H1.
  - intros i Hi. apply H3. lia.
  - intros L j HL1 HL2 Hj. assert (L = k - 1) by lia. subst L.
    rewrite H4 by lia. f_equal. unfold leaf_node, node_at.
    replace (k - (k - 1)) with 1 by lia.
    rewrite subtree_min_max_S, GetMinMax_single. simpl subtree_min_max.
    change (2 ^ 1) with 2.
    replace (0 + j * 2) with (2 * j) by lia.
    replace (j * 2) with (2 * j) by lia.
    replace (2 * j + 2 - 1) with (2 * j + 1) by lia.
    reflexivity.
Qed.

(** A higher layer after its loop, given the layer below it. *)
Lemma fill_layer_spec (ys : list (option real)) (k L : nat) (ivs : list Interval) :
  L + 1 < k -> length ivs = 2 ^ k - 1 ->
  layers_filled env ys k (L + 1) ivs ->
  let ivs' := fill_layer env k ivs L in
  length ivs' = length ivs /\
  (forall i, i < 2 ^ L - 1 -> ivs' !! i = ivs !! i) /\
  layers_filled env ys k L ivs'.
Proof.
  intros HL Hlen Hfilled. unfold fill_layer. rewrite layer_indices_eq.
  assert (Hp := pow2_pos L).
  assert (EL : 2 ^ (L + 1) = 2 * 2 ^ L).
  { replace (L + 1) with (Datatypes.S L) by lia. reflexivity. }
  assert (Hle : 2 ^ (L + 1) <= 2 ^ (k - 1)).
  { apply Nat.pow_le_mono_r; lia. }
  assert (E2 : 2 ^ k = 2 * 2 ^ (k - 1)).
  { replace k with (Datatypes.S (k - 1)) at 1 by lia. reflexivity. }
  destruct (write_loop_spec (inner_node env (2 ^ (k - L))) (2 ^ (k - L))
              (2 ^ L - 1) (2 ^ (L + 1) - 1) (node_step env k L)
              (node_step_eq k L)) with (c := 2 ^ L) (s := 2 ^ L - 1) (ivs := ivs) (st := 0)
    as (H1 & _ & H3 & H4); [| lia | lia | lia |].
  { intros ivs1 ivs2 st i Hi Hagree. unfold inner_node. f_equal.
    f_equal; f_equal; apply read_interval_agree, Hagree; lia. }
  cbv zeta. repeat split.
  - exact H1.
  - intros i Hi. apply H3. lia.
  - intros L' j HL1 HL2 Hj.
    destruct (Nat.eq_dec L' L) as [-> | Hne].
    + rewrite H4 by lia. f_equal. unfold inner_node, node_at.
      assert (Ej : 2 ^ (L + 1) - 1 + 2 * j = 2 * (2 ^ L - 1 + j) + 1) by lia.
      assert (Ej' : 2 ^ (L + 1) - 1 + (2 * j + 1) = 2 * (2 ^ L - 1 + j) + 2) by lia.
      rewrite <- Ej, <- Ej'.
      rewrite (read_interval_lookup _ _ _ (Hfilled (L + 1) (2 * j) ltac:(lia) ltac:(lia) ltac:(lia))).
      rewrite (read_interval_lookup _ _ _ (Hfilled (L + 1) (2 * j + 1) ltac:(lia) ltac:(lia) ltac:(lia))).
      unfold node_at. simpl min_max.
      replace (k - L) with (Datatypes.S (k - (L + 1))) by lia.
      rewrite subtree_min_max_S. reflexivity.
    + assert (HL' : L + 1 <= L') by lia.
      assert (2 ^ (L + 1) <= 2 ^ L') by (apply Nat.pow_le_mono_r; lia).
      rewrite H3 by lia. apply Hfilled; lia.
Qed.

(** The loop over the higher layers, from layer [m - 1] down to layer 0. *)
Lemma higher_layers_spec (ys : list (option real)) (k : nat) :
  forall (m : nat) (ivs : list Interval),
  m < k -> length ivs = 2 ^ k - 1 ->
  layers_filled env ys k m ivs ->
  let ivs' := fold_left (fill_layer env k) (rev (seq 0 m)) ivs in
  length ivs' = length ivs /\ layers_filled env ys k 0 ivs'.
Proof.
  induction m as [| m IH]; intros ivs Hm Hlen Hfilled.
  - simpl. split; [reflexivity | exact Hfilled].
  - rewrite seq_S, rev_app_distr. simpl rev. simpl app. simpl fold_left.
    destruct (fill_layer_spec ys k m ivs) as (H1 & _ & H3); [lia | exact Hlen | |].
    { replace (m + 1) with (Datatypes.S m) by lia. exact Hfilled. }
    destruct (IH (fill_layer env k ivs m)) as (H4 & H5); [lia | lia | exact H3 |].
    cbv zeta in *. split; [lia | exact H5].
Qed.

(** [FillIntervals] stores at every node its index range and the merge of
    the samples below it. *)
Lemma FillIntervals_spec (ys : list (option real)) (ivs : list Interval) :
  2 <= length ys -> length ivs = 2 ^ CeilingLog2 (length ys) - 1 ->
  let ivs' := FillIntervals env ys ivs in
  length ivs' = length ivs /\
  layers_filled env ys (CeilingLog2 (length ys)) 0 ivs'.
Proof.
  intros Hn Hlen. unfold FillIntervals, higher_layers.
  set (k := CeilingLog2 (length ys)) in *.
  assert (Hk : 1 <= k) by (apply CeilingLog2_ge_1; exact Hn).
  destruct (fill_lowest_layer_spec ys k ivs Hk Hlen) as (H1 & _ & H3).
  destruct (higher_layers_spec ys k (k - 1) (fill_lowest_layer env ys k ivs))
    as (H4 & H5); [lia | lia | exact H3 |].
  cbv zeta in *. split; [lia | exact H5].
Qed.

(** The members of a constructed curve. *)
Lemma new_curve_inv (xs : list real) (ys : list (option real))
    (c : ExplicitSingleValueCurve2D) :
  new_curve env xs ys = Some c ->
  length xs = length ys /\ 1 <= length ys /\ strictly_increasing xs = true /\
  x_values_ c = xs /\ y_values_ c = ys /\
  intervals_ c =
    (if 1 <? length ys
     then FillIntervals env ys (replicate (num_intervals (length ys)) Interval_zero)
     else replicate (num_intervals (length ys)) Interval_zero).
Proof.
  unfold new_curve. intros H.
  destruct (length xs =? length ys) eqn:E1; simpl in H; [| discriminate].
  destruct (length xs =? 0) eqn:E2; [discriminate |].
  destruct (strictly_increasing xs) eqn:E3; simpl in H; [| discriminate].
  apply Nat.eqb_eq in E1. apply Nat.eqb_neq in E2.
  inversion H; subst c; simpl. repeat split; auto; lia.
Qed.

(** The tree of a curve of at least two samples. *)
Lemma new_curve_tree (xs : list real) (ys : list (option real))
    (c : ExplicitSingleValueCurve2D) :
  new_curve env xs ys = Some c -> 2 <= length ys ->
  length (intervals_ c) = 2 ^ CeilingLog2 (length ys) - 1 /\
  layers_filled env ys (CeilingLog2 (length ys)) 0 (intervals_ c).
Proof.
  intros Hc Hn. destruct (new_curve_inv xs ys c Hc) as (_ & _ & _ & _ & _ & Hi).
  assert (E : (1 <? length ys) = true) by (apply Nat.ltb_lt; lia).
  rewrite E in Hi. rewrite Hi.
  destruct (FillIntervals_spec ys (replicate (num_intervals (length ys)) Interval_zero))
    as (H1 & H2); [exact Hn | |].
  - rewrite length_replicate. unfold num_intervals. rewrite shiftl_1_pow2. reflexivity.
  - cbv zeta in *. split; [| exact H2].
    rewrite H1, length_replicate. unfold num_intervals. rewrite shiftl_1_pow2. reflexivity.
Qed.

End Loops.

(** ** Minima and maxima under the order laws *)

Section Order.

Context {S : Scalar} {O : ScalarOrder S}.

Lemma std_min_assoc (a b c : real) :
  std_min (std_min a b) c = std_min a (std_min b c).
Proof.
  unfold std_min.
  destruct (lt_b b a) eqn:Eba; destruct (lt_b c b) eqn:Ecb.
  - rewrite (lt_b_trans c b a Ecb Eba). reflexivity.
  - rewrite Eba. reflexivity.
  - reflexivity.
  - rewrite Eba, (lt_b_negtrans c b a Ecb Eba). reflexivity.
Qed.

Lemma std_max_assoc (a b c : real) :
  std_max (std_max a b) c = std_max a (std_max b c).
Proof.
  unfold std_max.
  destruct (lt_b a b) eqn:Eab; destruct (lt_b b c) eqn:Ebc.
  - rewrite (lt_b_trans a b c Eab Ebc). reflexivity.
  - rewrite Eab. reflexivity.
  - reflexivity.
  - rewrite Eab, (lt_b_negtrans a b c Eab Ebc). reflexivity.
Qed.

Lemma merge_min_max_assoc (p q r : MinMax) :
  merge_min_max (merge_min_max p q) r = merge_min_max p (merge_min_max q r).
Proof.
  destruct p as [[pm pM] |], q as [[qm qM] |], r as [[rm rM] |]; simpl; try reflexivity.
  rewrite std_min_assoc, std_max_assoc. reflexivity.
Qed.

Lemma merge_min_max_None_r (p : MinMax) : merge_min_max p None = p.
Proof. destruct p as [[? ?] |]; reflexivity. Qed.

Lemma merge_min_max_None_l (p : MinMax) : merge_min_max None p = p.
Proof. destruct p as [[? ?] |]; reflexivity. Qed.

(** [std_min] and [std_max] pick one of their arguments, and bound both. *)
Lemma std_min_cases (a b : real) :
  (std_min a b = a \/ std_min a b = b) /\
  lt_b a (std_min a b) = false /\ lt_b b (std_min a b) = false.
Proof.
  unfold std_min. destruct (lt_b b a) eqn:E.
  - repeat split; auto using lt_b_irrefl.
    destruct (lt_b a b) eqn:E'; [| reflexivity].
    rewrite <- (lt_b_irrefl a). symmetry. eapply lt_b_trans; eauto.
  - repeat split; auto using lt_b_irrefl.
Qed.

Lemma std_max_cases (a b : real) :
  (std_max a b = a \/ std_max a b = b) /\
  lt_b (std_max a b) a = false /\ lt_b (std_max a b) b = false.
Proof.
  unfold std_max. destruct (lt_b a b) eqn:E.
  - repeat split; auto using lt_b_irrefl.
    destruct (lt_b b a) eqn:E'; [| reflexivity].
    rewrite <- (lt_b_irrefl a). symmetry. eapply lt_b_trans; eauto.
  - repeat split; auto using lt_b_irrefl.
Qed.

(** The right-to-left merge of a list of samples. *)
Lemma scan_list_min_max (vals : list (option real)) :
  min_max_of vals (fold_right (fun v acc => merge_min_max (single v) acc) None vals).
Proof.
  induction vals as [| v vals IH]; simpl.
  - intros v [].
  - remember (fold_right (fun v acc => merge_min_max (single v) acc) None vals) as r eqn:E.
    destruct r as [[m M] |]; simpl in IH.
    + destruct IH as [[Hm1 Hm2] [HM1 HM2]].
      destruct v as [y |]; simpl.
      * destruct (std_min_cases y m) as ([Em | Em] & Hm3 & Hm4);
        destruct (std_max_cases y M) as ([EM | EM] & HM3 & HM4);
        (split; split;
         [ rewrite ?Em; simpl; auto
         | intros v [Hv | Hv];
           [ inversion Hv; subst; assumption
           | eapply lt_b_negtrans; [apply Hm2; exact Hv | exact Hm4] ]
         | rewrite ?EM; simpl; auto
         | intros v [Hv | Hv];
           [ inversion Hv; subst; assumption
           | eapply lt_b_negtrans; [exact HM4 | apply HM2; exact Hv] ] ]).
      * repeat split; simpl; auto; intros v [Hv | Hv]; try discriminate; auto.
    + destruct v as [y |]; simpl.
      * repeat split; simpl; auto; intros v [Hv | Hv];
          try (inversion Hv; apply lt_b_irrefl); apply IH in Hv; discriminate.
      * intros v [Hv | Hv]; [auto | apply IH; exact Hv].
Qed.

(** The linear scan from the left gives the same pair. *)
Lemma linear_scan_fold_right (vals : list (option real)) :
  linear_scan vals = fold_right (fun v acc => merge_min_max (single v) acc) None vals.
Proof.
  unfold linear_scan.
  assert (G : forall acc,
    fold_left (fun acc v => merge_min_max acc (single v)) vals acc
    = merge_min_max acc (fold_right (fun v acc => merge_min_max (single v) acc) None vals)).
  { induction vals as [| v vals IH]; intros acc; simpl.
    - rewrite merge_min_max_None_r. reflexivity.
    - rewrite IH, merge_min_max_assoc. reflexivity. }
  rewrite G, merge_min_max_None_l. reflexivity.
Qed.

Lemma linear_scan_min_max (vals : list (option real)) :
  min_max_of vals (linear_scan vals).
Proof. rewrite linear_scan_fold_right. apply scan_list_min_max. Qed.

(** A result that is the (min, max) of the values is empty exactly when
    all of them are gaps. *)
Lemma min_max_of_None_iff (vals : list (option real)) (r : MinMax) :
  min_max_of vals r -> (r = None <-> all_gaps vals).
Proof.
  intros H. split.
  - intros ->. exact H.
  - intros Hg. destruct r as [[m M] |]; [| reflexivity].
    destruct H as [[Hin _] _]. apply Hg in Hin. discriminate.
Qed.

(** Two adjacent index ranges merged. *)
Lemma scan_from_app (f : nat -> option real) (a b lo : nat) :
  scan_from f lo (a + b) = merge_min_max (scan_from f lo a) (scan_from f (lo + a) b).
Proof.
  revert lo. induction a as [| a IH]; intros lo; simpl.
  - rewrite Nat.add_0_r. destruct (scan_from f lo b) as [[? ?] |]; reflexivity.
  - rewrite IH, merge_min_max_assoc.
    replace (Datatypes.S lo + a) with (lo + Datatypes.S a) by lia. reflexivity.
Qed.

(** A node of height [h] aggregates its [2^h] samples. *)
Lemma subtree_min_max_scan (f : nat -> option real) (h j : nat) :
  subtree_min_max f h j = scan_from f (j * 2 ^ h) (2 ^ h).
Proof.
  revert j. induction h as [| h IH]; intros j.
  - simpl. rewrite merge_min_max_None_r. f_equal. f_equal. lia.
  - rewrite subtree_min_max_S, !IH.
    replace (2 ^ Datatypes.S h) with (2 ^ h + 2 ^ h) by (simpl; lia).
    rewrite scan_from_app. f_equal; f_equal; lia.
Qed.

End Order.

(** ** The index query on a filled tree *)

Section IndexQuery.

Context {S : Scalar} (env : OutOfRange).

Lemma GetMinMaxOverIndexInterval_unfold fuel c lo hi interval_idx :
  GetMinMaxOverIndexInterval env (Datatypes.S fuel) c lo hi interval_idx =
  let iv := read_interval env (intervals_ c) interval_idx in
  if (lo_idx iv =? lo) && (hi_idx iv =? hi) then Returned (min_max iv)
  else if lo =? hi then Returned (single (read_y env (y_values_ c) lo))
  else
    let child1 := read_interval env (intervals_ c) (2 * interval_idx + 1) in
    let child2 := read_interval env (intervals_ c) (2 * interval_idx + 2) in
    if (lo_idx child1 <=? lo) && (hi <=? hi_idx child1) then
      GetMinMaxOverIndexInterval env fuel c lo hi (2 * interval_idx + 1)
    else if (lo_idx child2 <=? lo) && (hi <=? hi_idx child2) then
      GetMinMaxOverIndexInterval env fuel c lo hi (2 * interval_idx + 2)
    else
      match GetMinMaxOverIndexInterval env fuel c lo (hi_idx child1) (2 * interval_idx + 1) with
      | OutOfFuel => OutOfFuel
      | Returned partial1 =>
          match GetMinMaxOverIndexInterval env fuel c (lo_idx child2) hi (2 * interval_idx + 2) with
          | OutOfFuel => OutOfFuel
          | Returned partial2 => Returned (merge_min_max partial1 partial2)
          end
      end.
Proof.
  cbn [GetMinMaxOverIndexInterval]. cbv zeta.
  destruct (read_y env (y_values_ c) lo); reflexivity.
Qed.

Lemma IndexInterval_reads_unfold fuel c lo hi interval_idx :
  IndexInterval_reads env (Datatypes.S fuel) c lo hi interval_idx =
  let iv := read_interval env (intervals_ c) interval_idx in
  if (lo_idx iv =? lo) && (hi_idx iv =? hi) then [interval_idx]
  else if lo =? hi then [interval_idx]
  else
    let child1 := read_interval env (intervals_ c) (2 * interval_idx + 1) in
    let child2 := read_interval env (intervals_ c) (2 * interval_idx + 2) in
    if (lo_idx child1 <=? lo) && (hi <=? hi_idx child1) then
      interval_idx :: (2 * interval_idx + 1)
        :: IndexInterval_reads env fuel c lo hi (2 * interval_idx + 1)
    else if (lo_idx child2 <=? lo) && (hi <=? hi_idx child2) then
      interval_idx :: (2 * interval_idx + 1) :: (2 * interval_idx + 2)
        :: IndexInterval_reads env fuel c lo hi (2 * interval_idx + 2)
    else
      interval_idx :: (2 * interval_idx + 1) :: (2 * interval_idx + 2)
        :: IndexInterval_reads env fuel c lo (hi_idx child1) (2 * interval_idx + 1)
        ++ IndexInterval_reads env fuel c (lo_idx child2) hi (2 * interval_idx + 2).
Proof. reflexivity. Qed.

Variable c : ExplicitSingleValueCurve2D.
Variable k : nat.
Hypothesis Hfilled : layers_filled env (y_values_ c) k 0 (intervals_ c).

(** The three nodes the query looks at when it stands on the node at
    offset [j] of a layer that is not the lowest. *)
Lemma node_and_children (L h j : nat) :
  L + Datatypes.S (Datatypes.S h) = k -> j < 2 ^ L ->
  let p := 2 ^ Datatypes.S h in
  let f := read_y env (y_values_ c) in
  read_interval env (intervals_ c) (2 ^ L - 1 + j)
    = mkInterval (2 * (j * p)) (2 * (j * p) + 2 * p - 1)
        (subtree_min_max f (Datatypes.S (Datatypes.S h)) j) /\
  read_interval env (intervals_ c) (2 * (2 ^ L - 1 + j) + 1)
    = mkInterval (2 * (j * p)) (2 * (j * p) + p - 1)
        (subtree_min_max f (Datatypes.S h) (2 * j)) /\
  read_interval env (intervals_ c) (2 * (2 ^ L - 1 + j) + 2)
    = mkInterval (2 * (j * p) + p) (2 * (j * p) + 2 * p - 1)
        (subtree_min_max f (Datatypes.S h) (2 * j + 1)) /\
  2 * (2 ^ L - 1 + j) + 1 = 2 ^ (L + 1) - 1 + 2 * j /\
  2 * (2 ^ L - 1 + j) + 2 = 2 ^ (L + 1) - 1 + (2 * j + 1) /\
  2 * j + 1 < 2 ^ (L + 1) /\ 0 < p.
Proof.
  intros HL Hj p f.
  assert (Hp : 0 < p) by apply pow2_pos.
  assert (HpL := pow2_pos L).
  assert (EL : 2 ^ (L + 1) = 2 * 2 ^ L).
  { replace (L + 1) with (Datatypes.S L) by lia. reflexivity. }
  assert (E1 : 2 * (2 ^ L - 1 + j) + 1 = 2 ^ (L + 1) - 1 + 2 * j) by lia.
  assert (E2 : 2 * (2 ^ L - 1 + j) + 2 = 2 ^ (L + 1) - 1 + (2 * j + 1)) by lia.
  repeat split; try lia.
  - rewrite (read_interval_lookup env _ _ _ (Hfilled L j ltac:(lia) ltac:(lia) Hj)).
    unfold node_at. replace (k - L) with (Datatypes.S (Datatypes.S h)) by lia.
    change (2 ^ Datatypes.S (Datatypes.S h)) with (2 * p).
    f_equal; lia.
  - rewrite E1.
    rewrite (read_interval_lookup env _ _ _
               (Hfilled (L + 1) (2 * j) ltac:(lia) ltac:(lia) ltac:(lia))).
    unfold node_at. replace (k - (L + 1)) with (Datatypes.S h) by lia.
    fold p. f_equal; lia.
  - rewrite E2.
    rewrite (read_interval_lookup env _ _ _
               (Hfilled (L + 1) (2 * j + 1) ltac:(lia) ltac:(lia) ltac:(lia))).
    unfold node_at. replace (k - (L + 1)) with (Datatypes.S h) by lia.
    fold p. f_equal; lia.
Qed.

(** The node of the lowest layer at offset [j]. *)
Lemma lowest_node (L j : nat) :
  L + 1 = k -> j < 2 ^ L ->
  read_interval env (intervals_ c) (2 ^ L - 1 + j)
    = mkInterval (2 * j) (2 * j + 1) (subtree_min_max (read_y env (y_values_ c)) 1 j).
Proof.
  intros HL Hj.
  rewrite (read_interval_lookup env _ _ _ (Hfilled L j ltac:(lia) ltac:(lia) Hj)).
  unfold node_at. replace (k - L) with 1 by lia. change (2 ^ 1) with 2.
  f_equal; lia.
Qed.

(** Every node the query reads is a node of the array. *)
Lemma IndexInterval_reads_in_tree :
  forall h fuel L j lo hi,
  L + h = k -> 1 <= h -> j < 2 ^ L ->
  j * 2 ^ h <= lo -> lo <= hi -> hi < j * 2 ^ h + 2 ^ h ->
  Forall (fun i => i < 2 ^ k - 1) (IndexInterval_reads env fuel c lo hi (2 ^ L - 1 + j)).
Proof.
  induction h as [| h IH]; intros fuel L j lo hi HL Hh Hj Hlo Hlohi Hhi; [lia |].
  destruct fuel as [| fuel]; [constructor |].
  assert (Hidx : 2 ^ L - 1 + j < 2 ^ k - 1).
  { assert (2 ^ (L + 1) <= 2 ^ k) by (apply Nat.pow_le_mono_r; lia).
    replace (L + 1) with (Datatypes.S L) in * by lia. simpl in *. lia. }
  rewrite IndexInterval_reads_unfold. cbv zeta.
  destruct h as [| h].
  - (* lowest layer: the range has two samples *)
    rewrite (lowest_node L j ltac:(lia) Hj). cbn [lo_idx hi_idx min_max].
    change (2 ^ 1) with 2 in *.
    destruct ((2 * j =? lo) && (2 * j + 1 =? hi)) eqn:E1; [repeat constructor; exact Hidx |].
    destruct (lo =? hi) eqn:E2; [repeat constructor; exact Hidx |].
    apply Nat.eqb_neq in E2. apply andb_false_iff in E1.
    destruct E1 as [E1 | E1]; apply Nat.eqb_neq in E1; lia.
  - destruct (node_and_children L h j ltac:(lia) Hj)
      as (N0 & N1 & N2 & E1 & E2 & Hj2 & Hp).
    cbv zeta in *. set (p := 2 ^ Datatypes.S h) in *.
    assert (Ep : 2 ^ Datatypes.S (Datatypes.S h) = 2 * p) by reflexivity.
    rewrite Ep in *.
    assert (Eq : j * (2 * p) = 2 * (j * p)) by lia. rewrite Eq in *.
    assert (Eq1 : 2 * j * p = 2 * (j * p)) by lia.
    assert (Eq2 : (2 * j + 1) * p = 2 * (j * p) + p) by lia.
    assert (Hc1 : 2 * (2 ^ L - 1 + j) + 1 < 2 ^ k - 1).
    { assert (2 ^ (L + 1 + 1) <= 2 ^ k) by (apply Nat.pow_le_mono_r; lia).
      replace (L + 1 + 1) with (Datatypes.S (L + 1)) in * by lia.
      rewrite E1. simpl in *. lia. }
    assert (Hc2 : 2 * (2 ^ L - 1 + j) + 2 < 2 ^ k - 1).
    { assert (2 ^ (L + 1 + 1) <= 2 ^ k) by (apply Nat.pow_le_mono_r; lia).
      replace (L + 1 + 1) with (Datatypes.S (L + 1)) in * by lia.
      rewrite E2. simpl in *. lia. }
    rewrite N0, N1, N2. cbn [lo_idx hi_idx min_max].
    destruct ((2 * (j * p) =? lo) && (2 * (j * p) + 2 * p - 1 =? hi));
      [repeat constructor; exact Hidx |].
    destruct (lo =? hi); [repeat constructor; exact Hidx |].
    destruct ((2 * (j * p) <=? lo) && (hi <=? 2 * (j * p) + p - 1)) eqn:C1.
    + apply andb_true_iff in C1. destruct C1 as [C1a C1b].
      apply Nat.leb_le in C1a, C1b.
      constructor; [exact Hidx |]. constructor; [exact Hc1 |].
      rewrite E1. apply IH; fold p; lia.
    + destruct ((2 * (j * p) + p <=? lo) && (hi <=? 2 * (j * p) + 2 * p - 1)) eqn:C2.
      * apply andb_true_iff in C2. destruct C2 as [C2a C2b].
        apply Nat.leb_le in C2a, C2b.
        constructor; [exact Hidx |]. constructor; [exact Hc1 |].
        constructor; [exact Hc2 |].
        rewrite E2. apply IH; fold p; lia.
      * apply andb_false_iff in C1, C2.
        assert (Hs1 : lo <= 2 * (j * p) + p - 1).
        { destruct C2 as [C2 | C2]; [apply Nat.leb_gt in C2 | apply Nat.leb_gt in C2]; lia. }
        assert (Hs2 : 2 * (j * p) + p <= hi).
        { destruct C1 as [C1 | C1]; [apply Nat.leb_gt in C1 | apply Nat.leb_gt in C1]; lia. }
        constructor; [exact Hidx |]. constructor; [exact Hc1 |].
        constructor; [exact Hc2 |].
        apply Forall_app. split.
        -- rewrite E1. apply IH; fold p; lia.
        -- rewrite E2. apply IH; fold p; lia.
Qed.

End IndexQuery.

Section IndexQueryValue.

Context {S : Scalar} {O : ScalarOrder S} (env : OutOfRange).

Variable c : ExplicitSingleValueCurve2D.
Variable k : nat.
Hypothesis Hfilled : layers_filled env (y_values_ c) k 0 (intervals_ c).

(** Standing on a node whose range contains [lo .. hi], with fuel for the
    layers below, the query returns the merge of the samples [lo .. hi]. *)
Lemma GetMinMaxOverIndexInterval_scan :
  forall h fuel L j lo hi,
  L + h = k -> 1 <= h -> j < 2 ^ L -> h <= fuel ->
  j * 2 ^ h <= lo -> lo <= hi -> hi < j * 2 ^ h + 2 ^ h ->
  GetMinMaxOverIndexInterval env fuel c lo hi (2 ^ L - 1 + j)
  = Returned (scan_from (read_y env (y_values_ c)) lo (hi + 1 - lo)).
Proof.
  induction h as [| h IH]; intros fuel L j lo hi HL Hh Hj Hfuel Hlo Hlohi Hhi; [lia |].
  destruct fuel as [| fuel]; [lia |].
  rewrite GetMinMaxOverIndexInterval_unfold. cbv zeta.
  set (f := read_y env (y_values_ c)).
  assert (Hone : forall i, Returned (single (f i)) = Returned (scan_from f i (i + 1 - i))).
  { intros i. replace (i + 1 - i) with 1 by lia. simpl.
    rewrite merge_min_max_None_r. reflexivity. }
  destruct h as [| h].
  - rewrite (lowest_node env c k Hfilled L j ltac:(lia) Hj). cbn [lo_idx hi_idx min_max].
    change (2 ^ 1) with 2 in *.
    destruct ((2 * j =? lo) && (2 * j + 1 =? hi)) eqn:E1.
    + apply andb_true_iff in E1. destruct E1 as [E1a E1b].
      apply Nat.eqb_eq in E1a, E1b. subst lo hi.
      rewrite subtree_min_max_scan. fold f. f_equal. f_equal; simpl; lia.
    + destruct (lo =? hi) eqn:E2.
      * apply Nat.eqb_eq in E2. subst hi. apply Hone.
      * apply Nat.eqb_neq in E2. apply andb_false_iff in E1.
        destruct E1 as [E1 | E1]; apply Nat.eqb_neq in E1; lia.
  - destruct (node_and_children env c k Hfilled L h j ltac:(lia) Hj)
      as (N0 & N1 & N2 & E1 & E2 & Hj2 & Hp).
    cbv zeta in *. set (p := 2 ^ Datatypes.S h) in *.
    assert (Ep : 2 ^ Datatypes.S (Datatypes.S h) = 2 * p) by reflexivity.
    rewrite Ep in *.
    assert (Eq : j * (2 * p) = 2 * (j * p)) by lia. rewrite Eq in *.
    assert (Eq1 : 2 * j * p = 2 * (j * p)) by lia.
    assert (Eq2 : (2 * j + 1) * p = 2 * (j * p) + p) by lia.
    rewrite N0, N1, N2. cbn [lo_idx hi_idx min_max].
    destruct ((2 * (j * p) =? lo) && (2 * (j * p) + 2 * p - 1 =? hi)) eqn:C0.
    + apply andb_true_iff in C0. destruct C0 as [C0a C0b].
      apply Nat.eqb_eq in C0a, C0b. subst lo hi.
      rewrite subtree_min_max_scan. fold f. rewrite Ep. f_equal. f_equal; lia.
    + destruct (lo =? hi) eqn:C3.
      * apply Nat.eqb_eq in C3. subst hi. apply Hone.
      * apply Nat.eqb_neq in C3.
        destruct ((2 * (j * p) <=? lo) && (hi <=? 2 * (j * p) + p - 1)) eqn:C1.
        -- apply andb_true_iff in C1. destruct C1 as [C1a C1b].
           apply Nat.leb_le in C1a, C1b.
           rewrite E1. apply IH; fold p; lia.
        -- destruct ((2 * (j * p) + p <=? lo) && (hi <=? 2 * (j * p) + 2 * p - 1)) eqn:C2.
           ++ apply andb_true_iff in C2. destruct C2 as [C2a C2b].
              apply Nat.leb_le in C2a, C2b.
              rewrite E2. apply IH; fold p; lia.
           ++ apply andb_false_iff in C1, C2.
              assert (Hs1 : lo <= 2 * (j * p) + p - 1).
              { destruct C2 as [C2 | C2]; [apply Nat.leb_gt in C2 | apply Nat.leb_gt in C2]; lia. }
              assert (Hs2 : 2 * (j * p) + p <= hi).
              { destruct C1 as [C1 | C1]; [apply Nat.leb_gt in C1 | apply Nat.leb_gt in C1]; lia. }
              rewrite E1, (IH fuel (L + 1) (2 * j) lo (2 * (j * p) + p - 1)) by (fold p; lia).
              rewrite E2, (IH fuel (L + 1) (2 * j + 1) (2 * (j * p) + p) hi) by (fold p; lia).
              f_equal. fold f.
              replace (hi + 1 - lo)
                with ((2 * (j * p) + p - 1 + 1 - lo) + (hi + 1 - (2 * (j * p) + p))) by lia.
              rewrite scan_from_app. f_equal. f_equal. lia.
Qed.

End IndexQueryValue.

(** The samples read through [read_y] within the vector are the vector's. *)
Lemma scan_from_list {S : Scalar} (env : OutOfRange) (ys : list (option real)) (lo cnt : nat) :
  lo + cnt <= length ys ->
  scan_from (read_y env ys) lo cnt
  = fold_right (fun v acc => merge_min_max (single v) acc) None (take cnt (drop lo ys)).
Proof.
  revert lo. induction cnt as [| cnt IH]; intros lo Hlen.
  - rewrite take_0. reflexivity.
  - destruct (lookup_lt_is_Some_2 ys lo ltac:(lia)) as [v Hv].
    rewrite (drop_S _ _ _ Hv). simpl. rewrite (read_y_lookup env _ _ _ Hv).
    f_equal. apply IH. lia.
Qed.

(** ** The rationals satisfy the order laws *)

Lemma Qc_ltb_lt (a b : Qc) : Qc_ltb a b = true <-> (a < b)%Qc.
Proof.
  unfold Qc_ltb. rewrite Qclt_alt.
  destruct (Qccompare a b); split; intros H; try reflexivity; discriminate.
Qed.

Lemma Qc_ltb_ge (a b : Qc) : Qc_ltb a b = false <-> (b <= a)%Qc.
Proof.
  split; intros H.
  - apply Qcnot_lt_le. intros Hlt. apply Qc_ltb_lt in Hlt. congruence.
  - destruct (Qc_ltb a b) eqn:E; [| reflexivity].
    apply Qc_ltb_lt in E. exfalso. exact (Qcle_not_lt _ _ H E).
Qed.

Lemma Qc_scalar_order : ScalarOrder Qc_scalar.
Proof.
  constructor; simpl.
  - intros a. apply Qc_ltb_ge, Qcle_refl.
  - intros a b c Hab Hbc. apply Qc_ltb_lt in Hab, Hbc. apply Qc_ltb_lt.
    exact (Qclt_trans _ _ _ Hab Hbc).
  - intros a b c Hab Hbc. apply Qc_ltb_ge in Hab, Hbc. apply Qc_ltb_ge.
    exact (Qcle_trans _ _ _ Hbc Hab).
Qed.

(** ** The two searches *)

Section Searches.

Context {S : Scalar}.

Lemma upper_bound_le (xs : list real) (v : real) : upper_bound xs v <= length xs.
Proof. induction xs as [| x xs IH]; simpl; [lia |]. destruct (lt_b v x); simpl; lia. Qed.

(** Every sample is below [v]: the lower bound is the end. *)
Lemma lower_bound_all_below (xs : list real) (v : real) :
  forallb (fun x => lt_b x v) xs = true -> lower_bound xs v = length xs.
Proof.
  induction xs as [| x xs IH]; simpl; [reflexivity |].
  intros H. apply andb_true_iff in H. destruct H as [H1 H2].
  rewrite H1, IH by exact H2. reflexivity.
Qed.

(** The first sample is above [v]: the upper bound is the beginning. *)
Lemma upper_bound_first_above (xs : list real) (v : real) :
  forallb (fun x => lt_b v x) xs = true -> upper_bound xs v = 0.
Proof.
  destruct xs as [| x xs]; simpl; [reflexivity |].
  intros H. apply andb_true_iff in H. destruct H as [H1 _].
  rewrite H1. reflexivity.
Qed.


Context {O : ScalarOrder S}.

(** With the bounds reversed the upper bound does not pass the lower. *)
Lemma upper_bound_le_lower_bound (xs : list real) (xmin xmax : real) :
  lt_b xmax xmin = true -> upper_bound xs xmax <= lower_bound xs xmin.
Proof.
  intros Hrev. induction xs as [| x xs IH]; simpl; [lia |].
  destruct (lt_b xmax x) eqn:E1; [lia |].
  destruct (lt_b x xmin) eqn:E2; [lia |].
  rewrite (lt_b_negtrans xmax x xmin E1 E2) in Hrev. discriminate.
Qed.


(** In a strictly increasing vector the first sample is below the others. *)
Lemma strictly_increasing_head (x : real) (xs : list real) :
  strictly_increasing (x :: xs) = true -> forallb (fun y => lt_b x y) xs = true.
Proof.
  revert x. induction xs as [| y xs IH]; intros x H; [reflexivity |].
  simpl in H. apply andb_true_iff in H. destruct H as [H1 H2].
  simpl. rewrite H1. simpl.
  specialize (IH y H2).
  apply forallb_forall. intros z Hz.
  rewrite forallb_forall in IH. exact (lt_b_trans x y z H1 (IH z Hz)).
Qed.

Lemma strictly_increasing_tail (x : real) (xs : list real) :
  strictly_increasing (x :: xs) = true -> strictly_increasing xs = true.
Proof.
  destruct xs as [| y xs]; [reflexivity |].
  simpl. intros H. apply andb_true_iff in H. tauto.
Qed.


End Searches.

(** ** Curves of at least two samples *)

Section TwoOrMoreSamples.

Context {S : Scalar} (env : OutOfRange).


Lemma query_fuel_enough (xs : list real) (ys : list (option real))
    (c : ExplicitSingleValueCurve2D) :
  new_curve env xs ys = Some c -> 2 <= length ys ->
  CeilingLog2 (length ys) <= query_fuel c.
Proof.
  intros Hc Hn. destruct (new_curve_tree env xs ys c Hc Hn) as [Hlen _].
  unfold query_fuel. rewrite Hlen.
  assert (H := Nat.pow_gt_lin_r 2 (CeilingLog2 (length ys)) ltac:(lia)). lia.
Qed.

(** For a curve of at least two samples every node read while answering an
    index query with [lo <= hi < n] is one of the allocated nodes. *)
Theorem index_query_reads_allocated_nodes (xs : list real) (ys : list (option real))
    (c : ExplicitSingleValueCurve2D) (fuel lo hi : nat) :
  new_curve env xs ys = Some c -> 2 <= length ys ->
  lo <= hi -> hi < length ys ->
  Forall (fun i => i < length (intervals_ c)) (IndexInterval_reads env fuel c lo hi 0).
Proof.
  intros Hc Hn Hlohi Hhi.
  destruct (new_curve_tree env xs ys c Hc Hn) as [Hlen Hfilled].
  destruct (new_curve_inv env xs ys c Hc) as (_ & _ & _ & _ & Hy & _).
  rewrite Hlen.
  set (k := CeilingLog2 (length ys)) in *.
  rewrite <- Hy in Hfilled.
  assert (Hk : 1 <= k) by (apply CeilingLog2_ge_1; exact Hn).
  assert (Hup : length ys <= 2 ^ k) by (apply CeilingLog2_upper; lia).
  apply (IndexInterval_reads_in_tree env c k Hfilled k fuel 0 0 lo hi);
    simpl; lia.
Qed.

Context {O : ScalarOrder S}.

(** The index query on the root returns the linear scan of the samples. *)
Lemma index_query_linear_scan (xs : list real) (ys : list (option real))
    (c : ExplicitSingleValueCurve2D) (fuel lo hi : nat) :
  new_curve env xs ys = Some c -> 2 <= length ys ->
  lo <= hi -> hi < length ys -> CeilingLog2 (length ys) <= fuel ->
  GetMinMaxOverIndexInterval env fuel c lo hi 0
  = Returned (linear_scan (index_range ys lo hi)).
Proof.
  intros Hc Hn Hlohi Hhi Hfuel.
  destruct (new_curve_tree env xs ys c Hc Hn) as [Hlen Hfilled].
  destruct (new_curve_inv env xs ys c Hc) as (_ & _ & _ & _ & Hy & _).
  set (k := CeilingLog2 (length ys)) in *.
  rewrite <- Hy in Hfilled.
  assert (Hk : 1 <= k) by (apply CeilingLog2_ge_1; exact Hn).
  assert (Hup : length ys <= 2 ^ k) by (apply CeilingLog2_upper; lia).
  assert (Hq := GetMinMaxOverIndexInterval_scan env c k Hfilled k fuel 0 0 lo hi).
  change (2 ^ 0 - 1 + 0) with 0 in Hq.
  rewrite Hq by (simpl; lia).
  rewrite Hy, scan_from_list by lia.
  rewrite linear_scan_fold_right. reflexivity.
Qed.


Lemma merge_with_interp_none (r : MinMax) : merge_with_interp None None r = r.
Proof. destruct r as [[m M] |]; reflexivity. Qed.



End TwoOrMoreSamples.

Lemma index_query_reads_allocated_nodes_witness :
  Forall (fun i => i < length (intervals_ curve_012_Qc))
         (@IndexInterval_reads Qc_scalar zeroed_memory_Qc 3 curve_012_Qc 0 2 0).
Proof.
  apply (@index_query_reads_allocated_nodes Qc_scalar zeroed_memory_Qc
           xs_012_Qc ys_012_Qc curve_012_Qc 3 0 2).
  - vm_compute. reflexivity.
  - simpl. lia.
  - lia.
  - simpl. lia.
Defined.




(** ** Which samples FillIntervals reads *)

Section FillIntervalsReads.

Context {S : Scalar} (env : OutOfRange).

(** The lowest layer reads the samples [2j] and [2j + 1] for every
    [j < 2^(k-1)]: all of [0 .. 2^k - 1].  These reads stay within the
    vector exactly when its length is a power of two. *)
Theorem FillIntervals_reads_within_iff_power_of_two (ys : list (option real)) :
  2 <= length ys ->
  let k := CeilingLog2 (length ys) in
  let reads := FillIntervals_y_reads env ys (replicate (num_intervals (length ys)) Interval_zero) in
  In (2 ^ k - 1) reads /\
  (Forall (fun i => i < length ys) reads <-> length ys = 2 ^ k).
Proof.
  intros Hn k reads.
  assert (Hk : 1 <= k) by (apply CeilingLog2_ge_1; exact Hn).
  assert (Hup : length ys <= 2 ^ k) by (apply CeilingLog2_upper; lia).
  assert (Hp := pow2_pos (k - 1)).
  assert (E2 : 2 ^ k = 2 * 2 ^ (k - 1)).
  { replace k with (Datatypes.S (k - 1)) at 1 by lia. reflexivity. }
  destruct (fill_lowest_layer_spec env ys k
              (replicate (num_intervals (length ys)) Interval_zero) Hk)
    as (_ & _ & Hleaf).
  { rewrite length_replicate. unfold num_intervals. rewrite shiftl_1_pow2. reflexivity. }
  assert (Hnode : forall j, j < 2 ^ (k - 1) ->
    read_interval env
      (fill_lowest_layer env ys k (replicate (num_intervals (length ys)) Interval_zero))
      (2 ^ (k - 1) - 1 + j)
    = mkInterval (2 * j) (2 * j + 1) (subtree_min_max (read_y env ys) 1 j)).
  { intros j Hj.
    rewrite (read_interval_lookup env _ _ _ (Hleaf (k - 1) j ltac:(lia) ltac:(lia) Hj)).
    unfold node_at. replace (k - (k - 1)) with 1 by lia. change (2 ^ 1) with 2.
    f_equal; lia. }
  assert (Hin : forall i, In i reads <->
    exists j, j < 2 ^ (k - 1) /\ (i = 2 * j \/ i = 2 * j + 1)).
  { intros i. unfold reads, FillIntervals_y_reads. fold k.
    rewrite in_flat_map, layer_indices_eq. split.
    - intros (m & Hm & Hi). apply in_seq in Hm.
      exists (m - (2 ^ (k - 1) - 1)). split; [lia |].
      replace m with (2 ^ (k - 1) - 1 + (m - (2 ^ (k - 1) - 1))) in Hi by lia.
      rewrite Hnode in Hi by lia. simpl in Hi. lia.
    - intros (j & Hj & Hi). exists (2 ^ (k - 1) - 1 + j). split.
      + apply in_seq. lia.
      + rewrite Hnode by exact Hj. simpl. lia. }
  split; [| split].
  - apply Hin. exists (2 ^ (k - 1) - 1). lia.
  - intros Hall. rewrite Forall_forall in Hall.
    assert (H : 2 ^ k - 1 < length ys).
    { apply Hall. apply list_elem_of_In, Hin. exists (2 ^ (k - 1) - 1). lia. }
    lia.
  - intros Epow. apply Forall_forall. intros i Hi.
    apply list_elem_of_In, Hin in Hi. destruct Hi as (j & Hj & Hi). lia.
Qed.

End FillIntervalsReads.

Lemma FillIntervals_reads_within_iff_power_of_two_witness :
  In (2 ^ CeilingLog2 (length ys_012_Qc) - 1)
     (@FillIntervals_y_reads Qc_scalar zeroed_memory_Qc ys_012_Qc
        (replicate (num_intervals (length ys_012_Qc)) Interval_zero)) /\
  (Forall (fun i => i < length ys_012_Qc)
     (@FillIntervals_y_reads Qc_scalar zeroed_memory_Qc ys_012_Qc
        (replicate (num_intervals (length ys_012_Qc)) Interval_zero))
   <-> length ys_012_Qc = 2 ^ CeilingLog2 (length ys_012_Qc)).
Proof.
  apply (@FillIntervals_reads_within_iff_power_of_two Qc_scalar zeroed_memory_Qc ys_012_Qc).
  simpl. lia.
Defined.

(** * The claims *)

(** ** C5: the tree invariant *)

Lemma perform_all_same {S : Scalar} (env : OutOfRange)
    (ops : list operation) (c : ExplicitSingleValueCurve2D) :
  perform_all env c ops = c.
Proof.
  unfold perform_all. induction ops as [| op ops IH]; simpl; [reflexivity |].
  destruct op; simpl; exact IH.
Qed.

Lemma merge_is_gap_aware_combination {S : Scalar} (p1 p2 : MinMax) :
  gap_aware_combination (merge_min_max p1 p2) p1 p2.
Proof. destruct p1 as [[? ?] |], p2 as [[? ?] |]; reflexivity. Qed.

(** C5.  After the construction of a curve of at least two samples, every
    node above the lowest layer stores the gap-aware combination of the
    values stored in its two children, at indices 2i+1 and 2i+2; and no
    sequence of operations on the curve changes the array of nodes. *)
Theorem C5_tree_invariant {S : Scalar} (env : OutOfRange)
    (xs : list real) (ys : list (option real)) (c : ExplicitSingleValueCurve2D) :
  new_curve env xs ys = Some c -> 2 <= length ys ->
  (forall i, i < layer_start (CeilingLog2 (length ys) - 1) ->
     exists node child1 child2,
       intervals_ c !! i = Some node /\
       intervals_ c !! (2 * i + 1) = Some child1 /\
       intervals_ c !! (2 * i + 2) = Some child2 /\
       gap_aware_combination (min_max node) (min_max child1) (min_max child2)) /\
  (forall ops, intervals_ (perform_all env c ops) = intervals_ c).
Proof.
  intros Hc Hn. split; [| intros ops; rewrite perform_all_same; reflexivity].
  destruct (new_curve_tree env xs ys c Hc Hn) as [Hlen Hfilled].
  set (k := CeilingLog2 (length ys)) in *.
  intros i Hi. rewrite layer_start_eq in Hi.
  set (L := Nat.log2 (i + 1)).
  destruct (Nat.log2_spec (i + 1) ltac:(lia)) as [HL1 HL2]. fold L in HL1, HL2.
  assert (HLk : L < k - 1).
  { apply (Nat.pow_lt_mono_r_iff 2); lia. }
  assert (EL : 2 ^ (L + 1) = 2 * 2 ^ L).
  { replace (L + 1) with (Datatypes.S L) by lia. reflexivity. }
  change (2 ^ Datatypes.S L) with (2 * 2 ^ L) in HL2.
  set (j := i + 1 - 2 ^ L).
  assert (Ei : i = 2 ^ L - 1 + j) by (unfold j; lia).
  assert (Hj : j < 2 ^ L) by (unfold j; lia).
  exists (node_at env ys k L j), (node_at env ys k (L + 1) (2 * j)),
         (node_at env ys k (L + 1) (2 * j + 1)).
  repeat split.
  - rewrite Ei. apply Hfilled; lia.
  - replace (2 * i + 1) with (2 ^ (L + 1) - 1 + 2 * j) by lia. apply Hfilled; lia.
  - replace (2 * i + 2) with (2 ^ (L + 1) - 1 + (2 * j + 1)) by lia. apply Hfilled; lia.
  - unfold node_at. cbn [min_max].
    replace (k - L) with (Datatypes.S (k - (L + 1))) by lia.
    rewrite subtree_min_max_S. apply merge_is_gap_aware_combination.
Qed.

Lemma C5_tree_invariant_witness :
  (forall i, i < layer_start (CeilingLog2 (length ys_012_Qc) - 1) ->
     exists node child1 child2,
       intervals_ curve_012_Qc !! i = Some node /\
       intervals_ curve_012_Qc !! (2 * i + 1) = Some child1 /\
       intervals_ curve_012_Qc !! (2 * i + 2) = Some child2 /\
       gap_aware_combination (min_max node) (min_max child1) (min_max child2)) /\
  (forall ops, intervals_ (perform_all zeroed_memory_Qc curve_012_Qc ops)
               = intervals_ curve_012_Qc).
Proof.
  apply (@C5_tree_invariant Qc_scalar zeroed_memory_Qc xs_012_Qc ys_012_Qc curve_012_Qc).
  - vm_compute. reflexivity.
  - simpl. lia.
Defined.

(** ** C8: no sample between the bounds *)

(** C8.  When both searches succeed and leave no sample index in the range
    (hi_idx < lo_idx), the tree is not consulted and the query returns
    exactly [GetMinMax] of the two boundary interpolations, which is empty
    when both are absent.  On x = [0,1,2], y = [0,1,2] the query
    (1.25, 1.75) finds lo_idx = 2 and hi_idx = 1 and returns (1.25, 1.75). *)
Theorem C8_no_sample_between_bounds :
  (forall (S : Scalar) (env : OutOfRange) (c : ExplicitSingleValueCurve2D)
          (xmin xmax : real),
     lower_bound (x_values_ c) xmin < length (x_values_ c) ->
     0 < upper_bound (x_values_ c) xmax ->
     upper_bound (x_values_ c) xmax - 1 < lower_bound (x_values_ c) xmin ->
     GetMinMaxOverDomainInterval env c xmin xmax
     = Returned (GetMinMax
         (lo_interp env (x_values_ c) (y_values_ c) xmin (lower_bound (x_values_ c) xmin))
         (hi_interp env (x_values_ c) (y_values_ c) xmax
                    (upper_bound (x_values_ c) xmax - 1)))) /\
  (forall env : @OutOfRange float_scalar,
     @lower_bound float_scalar [0; 1; 2]%float 1.25%float = 2 /\
     @upper_bound float_scalar [0; 1; 2]%float 1.75%float - 1 = 1 /\
     @plot_query float_scalar env [0; 1; 2]%float
        [Some 0; Some 1; Some 2]%float 1.25%float 1.75%float
     = Some (Returned (Some (1.25, 1.75)%float))).
Proof.
  split.
  - intros S env c xmin xmax Hlo Hhi Hempty.
    unfold GetMinMaxOverDomainInterval. cbv zeta.
    replace (lower_bound (x_values_ c) xmin =? length (x_values_ c)) with false
      by (symmetry; apply Nat.eqb_neq; lia).
    replace (upper_bound (x_values_ c) xmax =? 0) with false
      by (symmetry; apply Nat.eqb_neq; lia).
    replace (lower_bound (x_values_ c) xmin <=? upper_bound (x_values_ c) xmax - 1)
      with false by (symmetry; apply Nat.leb_gt; lia).
    reflexivity.
  - intros env. repeat split; vm_compute; reflexivity.
Qed.

Lemma C8_no_sample_between_bounds_witness :
  @GetMinMaxOverDomainInterval Qc_scalar zeroed_memory_Qc curve_012_Qc
     (Q2Qc (5 # 4)) (Q2Qc (7 # 4))
  = Returned (@GetMinMax Qc_scalar
      (@lo_interp Qc_scalar zeroed_memory_Qc (x_values_ curve_012_Qc) (y_values_ curve_012_Qc)
         (Q2Qc (5 # 4)) (@lower_bound Qc_scalar (x_values_ curve_012_Qc) (Q2Qc (5 # 4))))
      (@hi_interp Qc_scalar zeroed_memory_Qc (x_values_ curve_012_Qc) (y_values_ curve_012_Qc)
         (Q2Qc (7 # 4)) (@upper_bound Qc_scalar (x_values_ curve_012_Qc) (Q2Qc (7 # 4)) - 1))).
Proof.
  apply (proj1 C8_no_sample_between_bounds Qc_scalar zeroed_memory_Qc curve_012_Qc
           (Q2Qc (5 # 4)) (Q2Qc (7 # 4))).
  - vm_compute. lia.
  - vm_compute. lia.
  - vm_compute. lia.
Defined.

(** ** C9: queries outside the sample domain *)

(** C9.  If [xmin] exceeds every sample x-value, or [xmax] is less than
    every sample x-value, the query returns the empty optional: an
    ordinary return, with no abort.  On x = [0,1,2], y = [0,1,2] the
    queries (3, 4) and (-4, -3) both return empty. *)
Theorem C9_outside_domain_is_empty :
  (forall (S : Scalar) (env : OutOfRange) (c : ExplicitSingleValueCurve2D)
          (xmin xmax : real),
     forallb (fun x => lt_b x xmin) (x_values_ c) = true ->
     GetMinMaxOverDomainInterval env c xmin xmax = Returned None) /\
  (forall (S : Scalar) (env : OutOfRange) (c : ExplicitSingleValueCurve2D)
          (xmin xmax : real),
     forallb (fun x => lt_b xmax x) (x_values_ c) = true ->
     GetMinMaxOverDomainInterval env c xmin xmax = Returned None) /\
  (forall env : @OutOfRange float_scalar,
     @plot_query float_scalar env [0; 1; 2]%float
        [Some 0; Some 1; Some 2]%float 3%float 4%float
     = Some (Returned None) /\
     @plot_query float_scalar env [0; 1; 2]%float
        [Some 0; Some 1; Some 2]%float (-4)%float (-3)%float
     = Some (Returned None)).
Proof.
  split; [| split].
  - intros S env c xmin xmax Habove.
    unfold GetMinMaxOverDomainInterval. cbv zeta.
    rewrite (lower_bound_all_below _ _ Habove), Nat.eqb_refl. reflexivity.
  - intros S env c xmin xmax Hbelow.
    unfold GetMinMaxOverDomainInterval. cbv zeta.
    destruct (lower_bound (x_values_ c) xmin =? length (x_values_ c)); [reflexivity |].
    rewrite (upper_bound_first_above _ _ Hbelow). reflexivity.
  - intros env. split; vm_compute; reflexivity.
Qed.

Lemma C9_outside_domain_is_empty_witness :
  @GetMinMaxOverDomainInterval Qc_scalar zeroed_memory_Qc curve_012_Qc
     (Q2Qc (3 # 1)) (Q2Qc (4 # 1)) = Returned None /\
  @GetMinMaxOverDomainInterval Qc_scalar zeroed_memory_Qc curve_012_Qc
     (Q2Qc (-4 # 1)) (Q2Qc (-3 # 1)) = Returned None.
Proof.
  split.
  - apply (proj1 C9_outside_domain_is_empty Qc_scalar zeroed_memory_Qc curve_012_Qc).
    vm_compute. reflexivity.
  - apply (proj1 (proj2 C9_outside_domain_is_empty) Qc_scalar zeroed_memory_Qc curve_012_Qc).
    vm_compute. reflexivity.
Defined.

(** ** C10: reversed bounds *)

(** C10 fails as stated: on x = [0,1,2], y = [0,1,2] the query with
    xmin = 1.75 > xmax = 1.25 returns (1.25, 1.75), not the empty optional. *)
Lemma C10_reversed_bounds_not_empty :
  @lt_b float_scalar 1.25%float 1.75%float = true /\
  @plot_query float_scalar zeroed_memory_float [0; 1; 2]%float
     [Some 0; Some 1; Some 2]%float 1.75%float 1.25%float
  = Some (Returned (Some (1.25, 1.75)%float)).
Proof. split; vm_compute; reflexivity. Qed.

(** C10, amended.  For xmin > xmax the tree is never consulted: the query
    returns empty when xmin exceeds every sample or xmax is below the first
    sample, and otherwise exactly [GetMinMax] of the two boundary
    interpolations. *)
Theorem C10_reversed_bounds {S : Scalar} {O : ScalarOrder S} (env : OutOfRange)
    (c : ExplicitSingleValueCurve2D) (xmin xmax : real) :
  lt_b xmax xmin = true ->
  GetMinMaxOverDomainInterval env c xmin xmax =
  if (lower_bound (x_values_ c) xmin =? length (x_values_ c))
     || (upper_bound (x_values_ c) xmax =? 0)
  then Returned None
  else Returned (GetMinMax
         (lo_interp env (x_values_ c) (y_values_ c) xmin (lower_bound (x_values_ c) xmin))
         (hi_interp env (x_values_ c) (y_values_ c) xmax
                    (upper_bound (x_values_ c) xmax - 1))).
Proof.
  intros Hrev. unfold GetMinMaxOverDomainInterval. cbv zeta.
  destruct (lower_bound (x_values_ c) xmin =? length (x_values_ c)); [reflexivity |].
  destruct (upper_bound (x_values_ c) xmax =? 0) eqn:E; [reflexivity |].
  apply Nat.eqb_neq in E.
  assert (H := upper_bound_le_lower_bound (x_values_ c) xmin xmax Hrev).
  replace (lower_bound (x_values_ c) xmin <=? upper_bound (x_values_ c) xmax - 1)
    with false by (symmetry; apply Nat.leb_gt; lia).
  reflexivity.
Qed.

Lemma C10_reversed_bounds_witness :
  @GetMinMaxOverDomainInterval Qc_scalar zeroed_memory_Qc curve_012_Qc
     (Q2Qc (7 # 4)) (Q2Qc (5 # 4)) =
  if (@lower_bound Qc_scalar (x_values_ curve_012_Qc) (Q2Qc (7 # 4))
        =? length (x_values_ curve_012_Qc))
     || (@upper_bound Qc_scalar (x_values_ curve_012_Qc) (Q2Qc (5 # 4)) =? 0)
  then Returned None
  else Returned (@GetMinMax Qc_scalar
         (@lo_interp Qc_scalar zeroed_memory_Qc (x_values_ curve_012_Qc)
            (y_values_ curve_012_Qc) (Q2Qc (7 # 4))
            (@lower_bound Qc_scalar (x_values_ curve_012_Qc) (Q2Qc (7 # 4))))
         (@hi_interp Qc_scalar zeroed_memory_Qc (x_values_ curve_012_Qc)
            (y_values_ curve_012_Qc) (Q2Qc (5 # 4))
            (@upper_bound Qc_scalar (x_values_ curve_012_Qc) (Q2Qc (5 # 4)) - 1))).
Proof.
  apply (@C10_reversed_bounds Qc_scalar Qc_scalar_order zeroed_memory_Qc curve_012_Qc
           (Q2Qc (7 # 4)) (Q2Qc (5 # 4))).
  vm_compute. reflexivity.
Defined.

(** ** C6 and C7: interpolation at the query boundaries *)

Section Interpolation.

Context {S : Scalar} (env : OutOfRange).

(** A gap at the sample on either side of [xmin] leaves no lower interpolation. *)
Lemma lo_interp_gap (xs : list real) (ys : list (option real)) (xmin : real) (i : nat) :
  read_y env ys i = None \/ read_y env ys (i - 1) = None ->
  lo_interp env xs ys xmin i = None.
Proof.
  intros H. unfold lo_interp.
  destruct (lt_b xmin (read_x env xs i) && (0 <? i)); [| reflexivity].
  destruct H as [-> | ->]; [reflexivity |].
  destruct (read_y env ys i); reflexivity.
Qed.

(** A gap at the sample on either side of [xmax] leaves no upper interpolation. *)
Lemma hi_interp_gap (xs : list real) (ys : list (option real)) (xmax : real) (i : nat) :
  read_y env ys i = None \/ read_y env ys (i + 1) = None ->
  hi_interp env xs ys xmax i = None.
Proof.
  intros H. unfold hi_interp.
  destruct ((i <? length xs - 1) && negb (eq_b (read_x env xs i) xmax)
            && lt_b xmax (read_x env xs (i + 1))); [| reflexivity].
  destruct H as [-> | ->]; [reflexivity |].
  destruct (read_y env ys i); [| reflexivity].
  destruct (negb (eq_b (read_x env xs (i + 1)) (read_x env xs i))); reflexivity.
Qed.

(** Below the first sample and above the last one nothing is interpolated. *)
Lemma lo_interp_first (xs : list real) (ys : list (option real)) (xmin : real) :
  lo_interp env xs ys xmin 0 = None.
Proof. unfold lo_interp. rewrite andb_false_r. reflexivity. Qed.

Lemma hi_interp_last (xs : list real) (ys : list (option real)) (xmax : real) :
  hi_interp env xs ys xmax (length xs - 1) = None.
Proof. unfold hi_interp. rewrite Nat.ltb_irrefl. reflexivity. Qed.

End Interpolation.

(** C6.  A gap at the sample on either side of a query boundary suppresses
    that boundary's interpolation, and gaps are left out of the aggregate:
    on x = [0,1,2,3] the query (0.5, 2.5) returns empty for
    y = [0,gap,gap,3], (0.5, 1.0) for y = [0,1,gap,3] and (2.0, 2.5) for
    y = [0,gap,2,3]. *)
Theorem C6_gaps_suppress_interpolation :
  (forall (S : Scalar) (env : OutOfRange) (xs : list real) (ys : list (option real))
          (xmin : real) (lo : nat),
     read_y env ys lo = None \/ read_y env ys (lo - 1) = None ->
     lo_interp env xs ys xmin lo = None) /\
  (forall (S : Scalar) (env : OutOfRange) (xs : list real) (ys : list (option real))
          (xmax : real) (hi : nat),
     read_y env ys hi = None \/ read_y env ys (hi + 1) = None ->
     hi_interp env xs ys xmax hi = None) /\
  (forall env : @OutOfRange float_scalar,
     @plot_query float_scalar env [0; 1; 2; 3]%float
        [Some 0; None; None; Some 3]%float 0.5%float 2.5%float
     = Some (Returned None) /\
     @plot_query float_scalar env [0; 1; 2; 3]%float
        [Some 0; Some 1; None; Some 3]%float 0.5%float 2.5%float
     = Some (Returned (Some (0.5, 1)%float)) /\
     @plot_query float_scalar env [0; 1; 2; 3]%float
        [Some 0; None; Some 2; Some 3]%float 0.5%float 2.5%float
     = Some (Returned (Some (2, 2.5)%float))).
Proof.
  split; [| split].
  - intros S env. apply lo_interp_gap.
  - intros S env. apply hi_interp_gap.
  - intros env. repeat split; vm_compute; reflexivity.
Qed.

Lemma C6_gaps_suppress_interpolation_witness :
  @lo_interp float_scalar zeroed_memory_float [0; 1; 2; 3]%float
     [Some 0; None; None; Some 3]%float 0.5%float 1 = None /\
  @hi_interp float_scalar zeroed_memory_float [0; 1; 2; 3]%float
     [Some 0; None; None; Some 3]%float 2.5%float 2 = None.
Proof.
  split.
  - apply (proj1 C6_gaps_suppress_interpolation float_scalar zeroed_memory_float).
    left. reflexivity.
  - apply (proj1 (proj2 C6_gaps_suppress_interpolation) float_scalar zeroed_memory_float).
    left. reflexivity.
Defined.

(** C7.  On x = [0,1,2], y = [0,1,2] the query returns (0.5, 1.5) for
    [0.5, 1.5], (1.5, 2.0) for [1.5, 2.5] and (0.0, 0.5) for [-0.5, 0.5].
    The boundary values are the linear interpolations of y at the query
    endpoints, and an endpoint outside the sample domain (before the first
    sample, after the last one) adds none. *)
Theorem C7_interpolation_at_boundaries :
  (forall env : @OutOfRange float_scalar,
     let xs := [0; 1; 2]%float in
     let ys := [Some 0; Some 1; Some 2]%float in
     (@plot_query float_scalar env xs ys 0.5%float 1.5%float
        = Some (Returned (Some (0.5, 1.5)%float)) /\
      @lo_interp float_scalar env xs ys 0.5%float (@lower_bound float_scalar xs 0.5%float)
        = Some 0.5%float /\
      @hi_interp float_scalar env xs ys 1.5%float (@upper_bound float_scalar xs 1.5%float - 1)
        = Some 1.5%float) /\
     (@plot_query float_scalar env xs ys 1.5%float 2.5%float
        = Some (Returned (Some (1.5, 2)%float)) /\
      @lo_interp float_scalar env xs ys 1.5%float (@lower_bound float_scalar xs 1.5%float)
        = Some 1.5%float /\
      @hi_interp float_scalar env xs ys 2.5%float (@upper_bound float_scalar xs 2.5%float - 1)
        = None) /\
     (@plot_query float_scalar env xs ys (-0.5)%float 0.5%float
        = Some (Returned (Some (0, 0.5)%float)) /\
      @lo_interp float_scalar env xs ys (-0.5)%float (@lower_bound float_scalar xs (-0.5)%float)
        = None /\
      @hi_interp float_scalar env xs ys 0.5%float (@upper_bound float_scalar xs 0.5%float - 1)
        = Some 0.5%float)) /\
  (forall (S : Scalar) (env : OutOfRange) (xs : list real) (ys : list (option real))
          (x : real),
     lo_interp env xs ys x 0 = None /\
     hi_interp env xs ys x (length xs - 1) = None).
Proof.
  split.
  - intros env xs ys. repeat split; vm_compute; reflexivity.
  - intros S env xs ys x. split; [apply lo_interp_first | apply hi_interp_last].
Qed.

(** ** C1, C2 and C4: the curve of a single sample *)

(** C4 fails for n = 1.  The query [GetMinMaxOverIndexInterval(0, 0, 0)]
    reads [intervals_[0]], whatever lies behind the array, although no
    node is allocated. *)
Theorem C4_single_sample_reads_unallocated_node :
  forall (env : @OutOfRange float_scalar) (fuel : nat),
    @new_curve float_scalar env [0%float] [Some 1%float] = Some single_sample_curve /\
    length (intervals_ single_sample_curve) = 0 /\
    @IndexInterval_reads float_scalar env (Datatypes.S fuel) single_sample_curve 0 0 0 = [0].
Proof.
  intros env fuel. repeat split.
  rewrite IndexInterval_reads_unfold. cbv zeta.
  destruct (_ && _); reflexivity.
Qed.

(** C1 fails for n = 1.  The result of the index query (0, 0) depends on
    what the read past the empty array yields: if that memory holds the
    indices (0, 0) the min_max found there is returned instead of the
    sample.  With zeroed memory the query returns empty although the only
    sample is 1. *)
Theorem C1_single_sample_index_query :
  (forall (env : @OutOfRange float_scalar) (fuel : nat),
     @GetMinMaxOverIndexInterval float_scalar env (Datatypes.S fuel) single_sample_curve 0 0 0
     = Returned (if (lo_idx (oob_interval env 0) =? 0) && (hi_idx (oob_interval env 0) =? 0)
                 then min_max (oob_interval env 0)
                 else Some (1, 1)%float)) /\
  @GetMinMaxOverIndexInterval float_scalar zeroed_memory_float 1 single_sample_curve 0 0 0
    = Returned None /\
  @index_range float_scalar [Some 1%float] 0 0 = [Some 1%float] /\
  ~ @all_gaps float_scalar [Some 1%float].
Proof.
  split; [| split; [| split]].
  - intros env fuel. rewrite GetMinMaxOverIndexInterval_unfold. cbv zeta.
    unfold read_interval. simpl lookup.
    destruct (_ && _); reflexivity.
  - reflexivity.
  - reflexivity.
  - intros H. specialize (H (Some 1%float) (or_introl eq_refl)). discriminate.
Qed.

(** C2 fails for n = 1, by the same read: with zeroed memory behind the
    empty array the query over the whole domain [x[0], x[0]] returns empty,
    while the linear scan of the values gives (1, 1). *)
Theorem C2_single_sample_domain_query :
  @GetMinMaxOverDomainInterval float_scalar zeroed_memory_float single_sample_curve
     0%float 0%float = Returned None /\
  @linear_scan float_scalar [Some 1%float] = Some (1, 1)%float /\
  (forall env : @OutOfRange float_scalar,
     @GetMinMaxOverDomainInterval float_scalar env single_sample_curve 0%float 0%float
     = Returned (if (lo_idx (oob_interval env 0) =? 0) && (hi_idx (oob_interval env 0) =? 0)
                 then min_max (oob_interval env 0)
                 else Some (1, 1)%float)).
Proof.
  split; [| split].
  - vm_compute. reflexivity.
  - vm_compute. reflexivity.
  - intros env. unfold GetMinMaxOverDomainInterval. cbv zeta.
    change (@lower_bound float_scalar (x_values_ single_sample_curve) 0%float) with 0.
    change (@upper_bound float_scalar (x_values_ single_sample_curve) 0%float) with 1.
    cbn [Nat.eqb length x_values_ single_sample_curve Nat.sub Nat.leb].
    rewrite lo_interp_first.
    change 0 with (length (x_values_ single_sample_curve) - 1) at 1.
    rewrite hi_interp_last.
    unfold query_fuel. rewrite GetMinMaxOverIndexInterval_unfold. cbv zeta.
    unfold read_interval. simpl lookup.
    destruct (_ && _); [rewrite merge_with_interp_none; reflexivity | reflexivity].
Qed.

(** ** C3: the samples read by FillIntervals *)

(** C3 fails for n = 3.  The tree has k = 2 layers; the second interval of
    the lowest layer is (2, 3), and [FillIntervals] reads [y_values_[3]],
    one past the last sample. *)
Theorem C3_three_samples_read_past_end :
  forall env : @OutOfRange float_scalar,
    let ys := [Some 0; Some 1; Some 2]%float in
    CeilingLog2 (length ys) = 2 /\
    match @new_curve float_scalar env [0; 1; 2]%float ys with
    | Some c =>
        option_map (fun iv : @Interval float_scalar => (lo_idx iv, hi_idx iv))
                   (intervals_ c !! 2)
    | None => None
    end = Some (2, 3) /\
    @FillIntervals_y_reads float_scalar env ys (replicate (num_intervals (length ys)) Interval_zero)
      = [0; 1; 2; 3] /\
    ys !! 3 = None /\
    length ys - 1 = 2.
Proof.
  intros env ys. repeat split; vm_compute; reflexivity.
Qed.

(** ** The repository's test suite *)


(** * Further properties of the code *)

(** ** CeilingLog2 *)

(** [CeilingLog2 n] is the least [k] with [n <= 2^k], for every [n >= 1]. *)
Theorem CeilingLog2_least (n : nat) :
  1 <= n ->
  n <= 2 ^ CeilingLog2 n /\ (forall m, n <= 2 ^ m -> CeilingLog2 n <= m).
Proof.
  intros Hn. split; [apply CeilingLog2_upper; exact Hn |].
  intros m Hm.
  destruct (Nat.eq_dec n 1) as [-> | Hne]; [rewrite CeilingLog2_1; lia |].
  assert (Hlow := CeilingLog2_lower n ltac:(lia)).
  destruct (Nat.le_gt_cases (CeilingLog2 n) m) as [Hle | Hgt]; [exact Hle |].
  assert (2 ^ m <= 2 ^ (CeilingLog2 n - 1)) by (apply Nat.pow_le_mono_r; lia).
  lia.
Qed.

Lemma CeilingLog2_least_witness :
  5 <= 2 ^ CeilingLog2 5 /\ (forall m, 5 <= 2 ^ m -> CeilingLog2 5 <= m).
Proof. apply (CeilingLog2_least 5). lia. Defined.

(** ** The constructor *)

Section Constructor.

Context {S : Scalar} (env : OutOfRange).



End Constructor.


(** ** The tree that FillIntervals builds *)

(** Every index of the array is an offset [j] within a layer [L]. *)
Lemma node_index_layer (k i : nat) :
  i < 2 ^ k - 1 -> exists L j, L < k /\ j < 2 ^ L /\ i = 2 ^ L - 1 + j.
Proof.
  intros Hi.
  destruct (Nat.log2_spec (i + 1) ltac:(lia)) as [H1 H2].
  set (L := Nat.log2 (i + 1)) in *.
  change (2 ^ Datatypes.S L) with (2 * 2 ^ L) in H2.
  exists L, (i + 1 - 2 ^ L). repeat split; try lia.
  apply (Nat.pow_lt_mono_r_iff 2); lia.
Qed.

Section Tree.

Context {S : Scalar} (env : OutOfRange).

(** The index ranges stored in the nodes, for a curve of at least two
    samples: the root covers [0 .. 2^k - 1]; the two children of a node
    split its range into a lower and an upper half of equal size; every
    node of the lowest layer covers two indices. *)
Theorem tree_ranges_halve (xs : list real) (ys : list (option real))
    (c : ExplicitSingleValueCurve2D) :
  new_curve env xs ys = Some c -> 2 <= length ys ->
  let k := CeilingLog2 (length ys) in
  (exists root, intervals_ c !! 0 = Some root /\
     lo_idx root = 0 /\ hi_idx root = 2 ^ k - 1) /\
  (forall i, i < layer_start (k - 1) ->
     exists node child1 child2,
       intervals_ c !! i = Some node /\
       intervals_ c !! (2 * i + 1) = Some child1 /\
       intervals_ c !! (2 * i + 2) = Some child2 /\
       lo_idx child1 = lo_idx node /\
       hi_idx child1 + 1 = lo_idx child2 /\
       hi_idx child2 = hi_idx node /\
       hi_idx child1 - lo_idx child1 = hi_idx child2 - lo_idx child2) /\
  (forall i, layer_start (k - 1) <= i -> i < layer_end (k - 1) ->
     exists leaf, intervals_ c !! i = Some leaf /\
       lo_idx leaf = 2 * (i - layer_start (k - 1)) /\ hi_idx leaf = lo_idx leaf + 1).
Proof.
  intros Hc Hn k.
  destruct (new_curve_tree env xs ys c Hc Hn) as [Hlen Hfilled]. fold k in Hlen, Hfilled.
  assert (Hk : 1 <= k) by (apply CeilingLog2_ge_1; exact Hn).
  assert (Ek : 2 ^ k = 2 * 2 ^ (k - 1)).
  { replace k with (Datatypes.S (k - 1)) at 1 by lia. reflexivity. }
  assert (Hpk := pow2_pos (k - 1)).
  split; [| split].
  - exists (node_at env ys k 0 0). split.
    + apply (Hfilled 0 0); simpl; lia.
    + unfold node_at. cbn [lo_idx hi_idx]. rewrite Nat.sub_0_r. lia.
  - intros i Hi. rewrite layer_start_eq in Hi.
    destruct (node_index_layer (k - 1) i Hi) as (L & j & HL & Hj & ->).
    assert (EL : 2 ^ (L + 1) = 2 * 2 ^ L).
    { replace (L + 1) with (Datatypes.S L) by lia. reflexivity. }
    assert (Eh : 2 ^ (k - L) = 2 * 2 ^ (k - (L + 1))).
    { replace (k - L) with (Datatypes.S (k - (L + 1))) by lia. reflexivity. }
    assert (Hp := pow2_pos (k - (L + 1))). assert (HpL := pow2_pos L).
    exists (node_at env ys k L j), (node_at env ys k (L + 1) (2 * j)),
           (node_at env ys k (L + 1) (2 * j + 1)).
    split; [apply Hfilled; lia |].
    split; [replace (2 * (2 ^ L - 1 + j) + 1) with (2 ^ (L + 1) - 1 + 2 * j) by lia;
            apply Hfilled; lia |].
    split; [replace (2 * (2 ^ L - 1 + j) + 2) with (2 ^ (L + 1) - 1 + (2 * j + 1)) by lia;
            apply Hfilled; lia |].
    unfold node_at. cbn [lo_idx hi_idx]. rewrite Eh.
    set (p := 2 ^ (k - (L + 1))) in *.
    assert (E1 : j * (2 * p) = 2 * (j * p)) by lia.
    assert (E2 : 2 * j * p = 2 * (j * p)) by lia.
    assert (E3 : (2 * j + 1) * p = 2 * (j * p) + p) by lia.
    rewrite E1, E2, E3. lia.
  - intros i Hi1 Hi2. unfold layer_end in Hi2.
    rewrite layer_start_eq in *. rewrite shiftl_1_pow2 in Hi2.
    exists (node_at env ys k (k - 1) (i - (2 ^ (k - 1) - 1))). split.
    + replace i with (2 ^ (k - 1) - 1 + (i - (2 ^ (k - 1) - 1))) at 1 by lia.
      apply Hfilled; lia.
    + unfold node_at. cbn [lo_idx hi_idx].
      replace (k - (k - 1)) with 1 by lia. change (2 ^ 1) with 2. lia.
Qed.

Context {O : ScalarOrder S}.

(** Every node whose index range lies within the vector stores the linear
    scan of its samples: their least and greatest value, or nothing
    exactly when all of them are gaps. *)
Theorem node_stores_min_max (xs : list real) (ys : list (option real))
    (c : ExplicitSingleValueCurve2D) (i : nat) (node : Interval) :
  new_curve env xs ys = Some c -> 2 <= length ys ->
  intervals_ c !! i = Some node -> hi_idx node < length ys ->
  let vals := index_range ys (lo_idx node) (hi_idx node) in
  min_max node = linear_scan vals /\
  min_max_of vals (min_max node) /\
  (min_max node = None <-> all_gaps vals).
Proof.
  intros Hc Hn Hnode Hhi vals.
  destruct (new_curve_tree env xs ys c Hc Hn) as [Hlen Hfilled].
  set (k := CeilingLog2 (length ys)) in *.
  assert (Hi : i < 2 ^ k - 1) by (rewrite <- Hlen; eapply lookup_lt_Some; exact Hnode).
  destruct (node_index_layer k i Hi) as (L & j & HL & Hj & ->).
  rewrite (Hfilled L j ltac:(lia) HL Hj) in Hnode. inversion Hnode; subst node.
  assert (E : min_max (node_at env ys k L j) = linear_scan vals).
  { subst vals. unfold node_at in *. cbn [lo_idx hi_idx min_max] in *.
    assert (Hp := pow2_pos (k - L)).
    rewrite subtree_min_max_scan, linear_scan_fold_right.
    rewrite scan_from_list by lia.
    unfold index_range. do 2 f_equal. lia. }
  rewrite E. split; [reflexivity |].
  split; [apply linear_scan_min_max | apply min_max_of_None_iff, linear_scan_min_max].
Qed.

End Tree.

Lemma tree_ranges_halve_witness :
  let k := CeilingLog2 (length ys_012_Qc) in
  (exists root, intervals_ curve_012_Qc !! 0 = Some root /\
     lo_idx root = 0 /\ hi_idx root = 2 ^ k - 1) /\
  (forall i, i < layer_start (k - 1) ->
     exists node child1 child2,
       intervals_ curve_012_Qc !! i = Some node /\
       intervals_ curve_012_Qc !! (2 * i + 1) = Some child1 /\
       intervals_ curve_012_Qc !! (2 * i + 2) = Some child2 /\
       lo_idx child1 = lo_idx node /\
       hi_idx child1 + 1 = lo_idx child2 /\
       hi_idx child2 = hi_idx node /\
       hi_idx child1 - lo_idx child1 = hi_idx child2 - lo_idx child2) /\
  (forall i, layer_start (k - 1) <= i -> i < layer_end (k - 1) ->
     exists leaf, intervals_ curve_012_Qc !! i = Some leaf /\
       lo_idx leaf = 2 * (i - layer_start (k - 1)) /\ hi_idx leaf = lo_idx leaf + 1).
Proof.
  apply (@tree_ranges_halve Qc_scalar zeroed_memory_Qc xs_012_Qc ys_012_Qc curve_012_Qc).
  - vm_compute. reflexivity.
  - simpl. lia.
Defined.

Lemma node_stores_min_max_witness :
  let node := @mkInterval Qc_scalar 0 1 (Some (Q2Qc 0, Q2Qc 1)) in
  let vals := index_range ys_012_Qc (lo_idx node) (hi_idx node) in
  min_max node = @linear_scan Qc_scalar vals /\
  @min_max_of Qc_scalar vals (min_max node) /\
  (min_max node = None <-> @all_gaps Qc_scalar vals).
Proof.
  apply (@node_stores_min_max Qc_scalar zeroed_memory_Qc Qc_scalar_order
           xs_012_Qc ys_012_Qc curve_012_Qc 1).
  - vm_compute. reflexivity.
  - simpl. lia.
  - vm_compute. reflexivity.
  - simpl. lia.
Defined.

(** ** The accesses of FillIntervals to the array *)

Lemma layer_writes_permutation (k : nat) :
  Permutation (flat_map layer_indices (rev (seq 0 k))) (seq 0 (2 ^ k - 1)).
Proof.
  induction k as [| k IH]; [reflexivity |].
  rewrite seq_S, rev_app_distr. simpl rev. simpl app. simpl flat_map.
  rewrite layer_indices_eq.
  assert (Hp := pow2_pos k).
  replace (2 ^ Datatypes.S k - 1) with ((2 ^ k - 1) + 2 ^ k) by (simpl; lia).
  rewrite seq_app. simpl "+".
  rewrite Permutation_app_comm. apply Permutation_app_tail. exact IH.
Qed.

(** For a vector of at least two samples [FillIntervals] writes every
    allocated node exactly once and no other index, and every child it
    reads is an allocated node. *)
Theorem FillIntervals_accesses_allocated_nodes (n : nat) :
  2 <= n ->
  Permutation (FillIntervals_writes n) (seq 0 (num_intervals n)) /\
  Forall (fun i => i < num_intervals n) (FillIntervals_child_reads n).
Proof.
  intros Hn. unfold FillIntervals_writes, FillIntervals_child_reads, num_intervals, higher_layers.
  rewrite shiftl_1_pow2.
  set (k := CeilingLog2 n).
  assert (Hk : 1 <= k) by (apply CeilingLog2_ge_1; exact Hn).
  split.
  - rewrite <- (layer_writes_permutation k).
    replace k with (Datatypes.S (k - 1)) at 3 by lia.
    rewrite seq_S, rev_app_distr. simpl rev. simpl app. simpl flat_map. reflexivity.
  - apply Forall_forall. intros i Hi. apply list_elem_of_In in Hi.
    apply in_flat_map in Hi. destruct Hi as (L & HL & Hi).
    apply in_rev, in_seq in HL.
    apply in_flat_map in Hi. destruct Hi as (m & Hm & Hi).
    rewrite layer_indices_eq in Hm. apply in_seq in Hm.
    assert (Hle : 2 ^ (L + 1) <= 2 ^ (k - 1)) by (apply Nat.pow_le_mono_r; lia).
    assert (EL : 2 ^ (L + 1) = 2 * 2 ^ L).
    { replace (L + 1) with (Datatypes.S L) by lia. reflexivity. }
    assert (Ek : 2 ^ k = 2 * 2 ^ (k - 1)).
    { replace k with (Datatypes.S (k - 1)) at 1 by lia. reflexivity. }
    simpl in Hi. lia.
Qed.

Lemma FillIntervals_accesses_allocated_nodes_witness :
  Permutation (FillIntervals_writes 5) (seq 0 (num_intervals 5)) /\
  Forall (fun i => i < num_intervals 5) (FillIntervals_child_reads 5).
Proof. apply (FillIntervals_accesses_allocated_nodes 5). lia. Defined.

(** ** The gap-aware merge *)

(** The merge of optional (min, max) pairs written out in [FillIntervals]
    and in [GetMinMaxOverIndexInterval] is associative and has the empty
    optional as its identity, so partial results may be merged in any
    grouping; [GetMinMax] is the merge of its two arguments taken as
    single samples. *)
Theorem merge_min_max_monoid {S : Scalar} {O : ScalarOrder S} :
  (forall p q r : MinMax,
     merge_min_max (merge_min_max p q) r = merge_min_max p (merge_min_max q r)) /\
  (forall p : MinMax, merge_min_max None p = p /\ merge_min_max p None = p) /\
  (forall a b : option real, GetMinMax a b = merge_min_max (single a) (single b)).
Proof.
  split; [| split].
  - apply merge_min_max_assoc.
  - intros p. split; [apply merge_min_max_None_l | apply merge_min_max_None_r].
  - intros a b. apply GetMinMax_single.
Qed.

Lemma merge_min_max_monoid_witness :
  let p : @MinMax Qc_scalar := Some (Q2Qc 1, Q2Qc 2) in
  let q : @MinMax Qc_scalar := None in
  let r : @MinMax Qc_scalar := Some (Q2Qc 0, Q2Qc 3) in
  merge_min_max (merge_min_max p q) r = merge_min_max p (merge_min_max q r).
Proof.
  intros p q r.
  exact (proj1 (@merge_min_max_monoid Qc_scalar Qc_scalar_order) p q r).
Defined.

(** ** The two searches on a strictly increasing vector *)

Section SortedSearches.

Context {S : Scalar} {O : ScalarOrder S}.

Lemma strictly_increasing_lt (xs : list real) :
  strictly_increasing xs = true ->
  forall i j a b, i < j -> xs !! i = Some a -> xs !! j = Some b -> lt_b a b = true.
Proof.
  induction xs as [| x xs IH]; intros Hinc i j a b Hij Ha Hb; [discriminate |].
  destruct j as [| j]; [lia |].
  destruct i as [| i].
  - simpl in Ha, Hb. inversion Ha; subst.
    assert (H := strictly_increasing_head _ _ Hinc).
    rewrite forallb_forall in H. apply H.
    apply list_elem_of_In, list_elem_of_lookup. eexists. exact Hb.
  - simpl in Ha, Hb.
    exact (IH (strictly_increasing_tail _ _ Hinc) i j a b ltac:(lia) Ha Hb).
Qed.

(** Before the lower bound every sample is less than [v]. *)
Lemma lower_bound_before (xs : list real) (v : real) (i : nat) (a : real) :
  i < lower_bound xs v -> xs !! i = Some a -> lt_b a v = true.
Proof.
  revert i. induction xs as [| x xs IH]; intros i Hi Ha; [simpl in Hi; lia |].
  simpl in Hi. destruct (lt_b x v) eqn:E; [| lia].
  destruct i as [| i]; simpl in Ha.
  - inversion Ha; subst. exact E.
  - apply (IH i); [lia | exact Ha].
Qed.

(** At the lower bound the sample is not less than [v]. *)
Lemma lower_bound_at (xs : list real) (v : real) (a : real) :
  xs !! lower_bound xs v = Some a -> lt_b a v = false.
Proof.
  induction xs as [| x xs IH]; intros Ha; [discriminate |].
  simpl in Ha. destruct (lt_b x v) eqn:E.
  - apply IH. exact Ha.
  - simpl in Ha. inversion Ha; subst. exact E.
Qed.

(** Before the upper bound no sample is greater than [v]. *)
Lemma upper_bound_before (xs : list real) (v : real) (i : nat) (a : real) :
  i < upper_bound xs v -> xs !! i = Some a -> lt_b v a = false.
Proof.
  revert i. induction xs as [| x xs IH]; intros i Hi Ha; [simpl in Hi; lia |].
  simpl in Hi. destruct (lt_b v x) eqn:E; [lia |].
  destruct i as [| i]; simpl in Ha.
  - inversion Ha; subst. exact E.
  - apply (IH i); [lia | exact Ha].
Qed.

(** At the upper bound the sample is greater than [v]. *)
Lemma upper_bound_at (xs : list real) (v : real) (a : real) :
  xs !! upper_bound xs v = Some a -> lt_b v a = true.
Proof.
  induction xs as [| x xs IH]; intros Ha; [discriminate |].
  simpl in Ha. destruct (lt_b v x) eqn:E.
  - simpl in Ha. inversion Ha; subst. exact E.
  - apply IH. exact Ha.
Qed.

(** A sample that is not below [xmin] and not above [xmax] has its index
    between the two bounds. *)
Lemma index_between_bounds (xs : list real) (xmin xmax : real) (i : nat) (x : real) :
  strictly_increasing xs = true -> xs !! i = Some x ->
  lt_b x xmin = false -> lt_b xmax x = false ->
  lower_bound xs xmin <= i /\ i < upper_bound xs xmax.
Proof.
  intros Hinc Hx Hlo Hhi. split.
  - destruct (Nat.le_gt_cases (lower_bound xs xmin) i) as [H | H]; [exact H |].
    rewrite (lower_bound_before xs xmin i x H Hx) in Hlo. discriminate.
  - destruct (Nat.le_gt_cases (upper_bound xs xmax) i) as [H | H]; [| exact H].
    assert (Hi := lookup_lt_Some _ _ _ Hx).
    destruct (lookup_lt_is_Some_2 xs (upper_bound xs xmax) ltac:(lia)) as [b Hb].
    assert (Hvb := upper_bound_at xs xmax b Hb).
    destruct (Nat.eq_dec (upper_bound xs xmax) i) as [E | E].
    + rewrite E in Hb. rewrite Hx in Hb. inversion Hb; subst. congruence.
    + assert (Hbx := strictly_increasing_lt xs Hinc (upper_bound xs xmax) i b x
                       ltac:(lia) Hb Hx).
      rewrite (lt_b_trans xmax b x Hvb Hbx) in Hhi. discriminate.
Qed.

(** The two bounds of a sample's own x-value enclose exactly its index. *)
Lemma bounds_at_sample (xs : list real) (i : nat) (x : real) :
  strictly_increasing xs = true -> xs !! i = Some x ->
  lower_bound xs x = i /\ upper_bound xs x = Datatypes.S i.
Proof.
  intros Hinc Hx.
  assert (Hi := lookup_lt_Some _ _ _ Hx).
  destruct (index_between_bounds xs x x i x Hinc Hx (lt_b_irrefl x) (lt_b_irrefl x))
    as [H1 H2].
  split.
  - destruct (Nat.eq_dec (lower_bound xs x) i) as [E | E]; [exact E |].
    destruct (lookup_lt_is_Some_2 xs (lower_bound xs x) ltac:(lia)) as [a Ha].
    assert (H := lower_bound_at xs x a Ha).
    rewrite (strictly_increasing_lt xs Hinc (lower_bound xs x) i a x ltac:(lia) Ha Hx) in H.
    discriminate.
  - destruct (Nat.eq_dec (upper_bound xs x) (Datatypes.S i)) as [E | E]; [exact E |].
    assert (Hub := upper_bound_le xs x).
    destruct (lookup_lt_is_Some_2 xs (Datatypes.S i) ltac:(lia)) as [b Hb].
    assert (H := upper_bound_before xs x (Datatypes.S i) b ltac:(lia) Hb).
    rewrite (strictly_increasing_lt xs Hinc i (Datatypes.S i) x b ltac:(lia) Hx Hb) in H.
    discriminate.
Qed.

(** ** The final merge of the domain query *)



End SortedSearches.

(** ** What the domain query returns *)

Section DomainQuery.

Context {S : Scalar} {O : ScalarOrder S} (env : OutOfRange).

Lemma domain_query_merge (xs : list real) (ys : list (option real))
    (c : ExplicitSingleValueCurve2D) (xmin xmax : real) :
  new_curve env xs ys = Some c -> 2 <= length ys ->
  GetMinMaxOverDomainInterval env c xmin xmax =
  Returned
    (if (lower_bound xs xmin =? length xs) || (upper_bound xs xmax =? 0) then None
     else merge_with_interp
            (lo_interp env xs ys xmin (lower_bound xs xmin))
            (hi_interp env xs ys xmax (upper_bound xs xmax - 1))
            (interior_scan xs ys xmin xmax)).
Proof.
  intros Hc Hn. unfold interior_scan.
  destruct (new_curve_inv env xs ys c Hc) as (Hlen & _ & _ & Hx & Hy & _).
  unfold GetMinMaxOverDomainInterval. rewrite Hx, Hy. cbv zeta.
  destruct (lower_bound xs xmin =? length xs); [reflexivity |].
  destruct (upper_bound xs xmax =? 0) eqn:E; [reflexivity |].
  apply Nat.eqb_neq in E. cbn [orb].
  destruct (lower_bound xs xmin <=? upper_bound xs xmax - 1) eqn:Hle; [| reflexivity].
  apply Nat.leb_le in Hle.
  assert (Hub := upper_bound_le xs xmax).
  rewrite (index_query_linear_scan env xs ys c (query_fuel c) _ _ Hc Hn)
    by (try lia; apply (query_fuel_enough env xs ys c Hc Hn)).
  reflexivity.
Qed.




(** When both bounds are x-values of samples, at indices [i <= j], nothing
    is interpolated and the query returns the linear scan of the values at
    [i .. j].  The upper bound must compare equal to itself, as every
    double other than NaN does. *)
Theorem domain_query_at_samples (xs : list real) (ys : list (option real))
    (c : ExplicitSingleValueCurve2D) (i j : nat) (xi xj : real) :
  new_curve env xs ys = Some c -> 2 <= length ys ->
  xs !! i = Some xi -> xs !! j = Some xj -> i <= j -> eq_b xj xj = true ->
  GetMinMaxOverDomainInterval env c xi xj = Returned (linear_scan (index_range ys i j)) /\
  min_max_of (index_range ys i j) (linear_scan (index_range ys i j)).
Proof.
  intros Hc Hn Hxi Hxj Hij Heq. split; [| apply linear_scan_min_max].
  destruct (new_curve_inv env xs ys c Hc) as (Hlen & _ & Hinc & _).
  assert (Hj := lookup_lt_Some _ _ _ Hxj).
  destruct (bounds_at_sample xs i xi Hinc Hxi) as [Elo _].
  destruct (bounds_at_sample xs j xj Hinc Hxj) as [_ Ehi].
  rewrite (domain_query_merge xs ys c xi xj Hc Hn). unfold interior_scan.
  rewrite Elo, Ehi.
  replace (i =? length xs) with false by (symmetry; apply Nat.eqb_neq; lia).
  cbn [Nat.eqb orb]. replace (Datatypes.S j - 1) with j by lia.
  replace (i <=? j) with true by (symmetry; apply Nat.leb_le; lia).
  assert (E1 : lo_interp env xs ys xi i = None).
  { unfold lo_interp, read_x. rewrite Hxi, lt_b_irrefl. reflexivity. }
  assert (E2 : hi_interp env xs ys xj j = None).
  { unfold hi_interp, read_x. rewrite Hxj, Heq. cbn [negb].
    rewrite andb_false_r. reflexivity. }
  rewrite E1, E2, merge_with_interp_none. reflexivity.
Qed.

End DomainQuery.

(** The boundary interpolations read only samples of the vectors. *)
Lemma lo_interp_in_range {S : Scalar} (env1 env2 : OutOfRange)
    (xs : list real) (ys : list (option real)) (xmin : real) (lo : nat) :
  length xs = length ys -> lo < length xs ->
  lo_interp env1 xs ys xmin lo = lo_interp env2 xs ys xmin lo.
Proof.
  intros Hlen Hlo. unfold lo_interp, read_x, read_y.
  destruct (lookup_lt_is_Some_2 xs lo Hlo) as [x1 ->].
  destruct (lookup_lt_is_Some_2 ys lo ltac:(lia)) as [y1 ->].
  destruct (lookup_lt_is_Some_2 xs (lo - 1) ltac:(lia)) as [x0 ->].
  destruct (lookup_lt_is_Some_2 ys (lo - 1) ltac:(lia)) as [y0 ->].
  reflexivity.
Qed.

Lemma hi_interp_in_range {S : Scalar} (env1 env2 : OutOfRange)
    (xs : list real) (ys : list (option real)) (xmax : real) (hi : nat) :
  length xs = length ys -> hi < length xs ->
  hi_interp env1 xs ys xmax hi = hi_interp env2 xs ys xmax hi.
Proof.
  intros Hlen Hhi. unfold hi_interp.
  destruct (hi <? length xs - 1) eqn:E; [| reflexivity].
  apply Nat.ltb_lt in E. unfold read_x, read_y.
  destruct (lookup_lt_is_Some_2 xs hi Hhi) as [x0 ->].
  destruct (lookup_lt_is_Some_2 ys hi ltac:(lia)) as [y0 ->].
  destruct (lookup_lt_is_Some_2 xs (hi + 1) ltac:(lia)) as [x1 ->].
  destruct (lookup_lt_is_Some_2 ys (hi + 1) ltac:(lia)) as [y1 ->].
  reflexivity.
Qed.

(** For a curve of at least two samples no result of a domain query
    depends on what lies behind the arrays: the value that the lowest
    layer of [FillIntervals] reads past the end of [y_values_] never
    reaches a result. *)
Theorem domain_query_ignores_out_of_range_memory {S : Scalar} {O : ScalarOrder S}
    (env1 env2 : OutOfRange) (xs : list real) (ys : list (option real))
    (c1 c2 : ExplicitSingleValueCurve2D) (xmin xmax : real) :
  new_curve env1 xs ys = Some c1 -> new_curve env2 xs ys = Some c2 ->
  2 <= length ys ->
  GetMinMaxOverDomainInterval env1 c1 xmin xmax
  = GetMinMaxOverDomainInterval env2 c2 xmin xmax.
Proof.
  intros Hc1 Hc2 Hn.
  destruct (new_curve_inv env1 xs ys c1 Hc1) as (Hlen & _).
  rewrite (domain_query_merge env1 xs ys c1 xmin xmax Hc1 Hn).
  rewrite (domain_query_merge env2 xs ys c2 xmin xmax Hc2 Hn).
  assert (Hub := upper_bound_le xs xmax).
  destruct (lower_bound xs xmin =? length xs) eqn:E1; [reflexivity |].
  destruct (upper_bound xs xmax =? 0) eqn:E2; [reflexivity |].
  apply Nat.eqb_neq in E1, E2. cbn [orb].
  assert (Hlo : lower_bound xs xmin < length xs).
  { assert (H : lower_bound xs xmin <= length xs).
    { clear. induction xs as [| x xs IH]; simpl; [lia |].
      destruct (lt_b x xmin); simpl; lia. }
    lia. }
  rewrite (lo_interp_in_range env1 env2 xs ys xmin _ Hlen Hlo).
  rewrite (hi_interp_in_range env1 env2 xs ys xmax (upper_bound xs xmax - 1) Hlen
             ltac:(lia)).
  reflexivity.
Qed.



Lemma domain_query_at_samples_witness :
  @GetMinMaxOverDomainInterval Qc_scalar zeroed_memory_Qc curve_012_Qc (Q2Qc 0) (Q2Qc 2)
    = Returned (@linear_scan Qc_scalar (index_range ys_012_Qc 0 2)) /\
  @min_max_of Qc_scalar (index_range ys_012_Qc 0 2)
    (@linear_scan Qc_scalar (index_range ys_012_Qc 0 2)).
Proof.
  apply (@domain_query_at_samples Qc_scalar Qc_scalar_order zeroed_memory_Qc
           xs_012_Qc ys_012_Qc curve_012_Qc 0 2 (Q2Qc 0) (Q2Qc 2)).
  - vm_compute. reflexivity.
  - simpl. lia.
  - reflexivity.
  - reflexivity.
  - lia.
  - vm_compute. reflexivity.
Defined.

Lemma domain_query_ignores_out_of_range_memory_witness :
  @GetMinMaxOverDomainInterval Qc_scalar zeroed_memory_Qc curve_012_Qc
     (Q2Qc (3 # 2)) (Q2Qc (5 # 2))
  = @GetMinMaxOverDomainInterval Qc_scalar other_memory_Qc curve_012_other_Qc
     (Q2Qc (3 # 2)) (Q2Qc (5 # 2)).
Proof.
  apply (@domain_query_ignores_out_of_range_memory Qc_scalar Qc_scalar_order
           zeroed_memory_Qc other_memory_Qc xs_012_Qc ys_012_Qc).
  - vm_compute. reflexivity.
  - vm_compute. reflexivity.
  - simpl. lia.
Defined.

(** ** The number of nodes an index query reads *)

Section QueryCost.

Context {S : Scalar} (env : OutOfRange).

Variable c : ExplicitSingleValueCurve2D.
Variable k : nat.
Hypothesis Hfilled : layers_filled env (y_values_ c) k 0 (intervals_ c).

(** A query for exactly the range of the node it stands on reads that node only. *)
Lemma reads_exact_match (fuel lo hi idx : nat) :
  lo_idx (read_interval env (intervals_ c) idx) = lo ->
  hi_idx (read_interval env (intervals_ c) idx) = hi ->
  length (IndexInterval_reads env fuel c lo hi idx) <= 1.
Proof.
  intros Hlo Hhi. destruct fuel as [| fuel]; [simpl; lia |].
  rewrite IndexInterval_reads_unfold. cbv zeta.
  rewrite Hlo, Hhi, !Nat.eqb_refl. simpl. lia.
Qed.

(** The setting of the three lemmas below at a node above the lowest layer:
    the node, its children and the arithmetic of their ranges. *)
Ltac at_inner_node L h j Hj :=
  let N0 := fresh "N0" in let N1 := fresh "N1" in let N2 := fresh "N2" in
  let E1 := fresh "E1" in let E2 := fresh "E2" in
  let Hj2 := fresh "Hj2" in let Hp := fresh "Hp" in
  destruct (node_and_children env c k Hfilled L h j ltac:(lia) Hj)
    as (N0 & N1 & N2 & E1 & E2 & Hj2 & Hp);
  cbv zeta in N0, N1, N2, Hp;
  set (p := 2 ^ Datatypes.S h) in *;
  assert (Ep : 2 ^ Datatypes.S (Datatypes.S h) = 2 * p) by reflexivity;
  rewrite ?Ep in *;
  assert (Eq : j * (2 * p) = 2 * (j * p)) by lia;
  rewrite ?Eq in *;
  assert (Eq1 : 2 * j * p = 2 * (j * p)) by lia;
  assert (Eq2 : (2 * j + 1) * p = 2 * (j * p) + p) by lia;
  rewrite IndexInterval_reads_unfold; cbv zeta;
  rewrite N0, N1, N2; cbn [lo_idx hi_idx min_max].

(** A query that ends where the node's range ends reads at most four
    nodes per layer. *)
Lemma reads_suffix :
  forall h fuel L j lo,
  L + h = k -> 1 <= h -> j < 2 ^ L ->
  j * 2 ^ h <= lo -> lo <= j * 2 ^ h + 2 ^ h - 1 ->
  length (IndexInterval_reads env fuel c lo (j * 2 ^ h + 2 ^ h - 1) (2 ^ L - 1 + j))
  <= 4 * h.
Proof.
  induction h as [| h IH]; intros fuel L j lo HL Hh Hj Hlo Hhi; [lia |].
  destruct fuel as [| fuel]; [simpl; lia |].
  destruct h as [| h].
  - rewrite IndexInterval_reads_unfold. cbv zeta.
    rewrite (lowest_node env c k Hfilled L j ltac:(lia) Hj). cbn [lo_idx hi_idx min_max].
    change (2 ^ 1) with 2 in *.
    destruct ((2 * j =? lo) && (2 * j + 1 =? j * 2 + 2 - 1)) eqn:C0; [simpl; lia |].
    destruct (lo =? j * 2 + 2 - 1) eqn:C3; [simpl; lia |].
    apply Nat.eqb_neq in C3. apply andb_false_iff in C0.
    destruct C0 as [C0 | C0]; apply Nat.eqb_neq in C0; lia.
  - at_inner_node L h j Hj.
    destruct ((2 * (j * p) =? lo) && (2 * (j * p) + 2 * p - 1 =? 2 * (j * p) + 2 * p - 1));
      [simpl; lia |].
    destruct (lo =? 2 * (j * p) + 2 * p - 1); [simpl; lia |].
    destruct ((2 * (j * p) <=? lo) && (2 * (j * p) + 2 * p - 1 <=? 2 * (j * p) + p - 1)) eqn:C1.
    { apply andb_true_iff in C1. destruct C1 as [_ C1]. apply Nat.leb_le in C1. lia. }
    destruct ((2 * (j * p) + p <=? lo)
              && (2 * (j * p) + 2 * p - 1 <=? 2 * (j * p) + 2 * p - 1)) eqn:C2.
    + apply andb_true_iff in C2. destruct C2 as [C2 _]. apply Nat.leb_le in C2.
      cbn [length]. rewrite E2.
      replace (2 * (j * p) + 2 * p - 1) with ((2 * j + 1) * p + p - 1) by lia.
      assert (H := IH fuel (L + 1) (2 * j + 1) lo ltac:(lia) ltac:(lia) Hj2
                      ltac:(fold p; lia) ltac:(fold p; lia)).
      lia.
    + apply andb_false_iff in C2.
      assert (Hs : lo < 2 * (j * p) + p).
      { destruct C2 as [C2 | C2]; apply Nat.leb_gt in C2; lia. }
      cbn [length]. rewrite length_app.
      assert (H1 : length (IndexInterval_reads env fuel c lo (2 * (j * p) + p - 1)
                             (2 * (2 ^ L - 1 + j) + 1)) <= 4 * Datatypes.S h).
      { rewrite E1.
        replace (2 * (j * p) + p - 1) with (2 * j * p + p - 1) by lia.
        apply IH; fold p; lia. }
      assert (H2 : length (IndexInterval_reads env fuel c (2 * (j * p) + p)
                             (2 * (j * p) + 2 * p - 1) (2 * (2 ^ L - 1 + j) + 2)) <= 1).
      { apply reads_exact_match; rewrite N2; reflexivity. }
      lia.
Qed.

(** A query that starts where the node's range starts reads at most four
    nodes per layer. *)
Lemma reads_prefix :
  forall h fuel L j hi,
  L + h = k -> 1 <= h -> j < 2 ^ L ->
  j * 2 ^ h <= hi -> hi <= j * 2 ^ h + 2 ^ h - 1 ->
  length (IndexInterval_reads env fuel c (j * 2 ^ h) hi (2 ^ L - 1 + j)) <= 4 * h.
Proof.
  induction h as [| h IH]; intros fuel L j hi HL Hh Hj Hlo Hhi; [lia |].
  destruct fuel as [| fuel]; [simpl; lia |].
  destruct h as [| h].
  - rewrite IndexInterval_reads_unfold. cbv zeta.
    rewrite (lowest_node env c k Hfilled L j ltac:(lia) Hj). cbn [lo_idx hi_idx min_max].
    change (2 ^ 1) with 2 in *.
    destruct ((2 * j =? j * 2) && (2 * j + 1 =? hi)) eqn:C0; [simpl; lia |].
    destruct (j * 2 =? hi) eqn:C3; [simpl; lia |].
    apply Nat.eqb_neq in C3. apply andb_false_iff in C0.
    destruct C0 as [C0 | C0]; apply Nat.eqb_neq in C0; lia.
  - at_inner_node L h j Hj.
    destruct ((2 * (j * p) =? 2 * (j * p)) && (2 * (j * p) + 2 * p - 1 =? hi));
      [simpl; lia |].
    destruct (2 * (j * p) =? hi); [simpl; lia |].
    destruct ((2 * (j * p) <=? 2 * (j * p)) && (hi <=? 2 * (j * p) + p - 1)) eqn:C1.
    + apply andb_true_iff in C1. destruct C1 as [_ C1]. apply Nat.leb_le in C1.
      cbn [length]. rewrite E1.
      replace (2 * (j * p)) with (2 * j * p) at 1 by lia.
      assert (H := IH fuel (L + 1) (2 * j) hi ltac:(lia) ltac:(lia) ltac:(lia)
                      ltac:(fold p; lia) ltac:(fold p; lia)).
      lia.
    + apply andb_false_iff in C1.
      assert (Hs : 2 * (j * p) + p <= hi).
      { destruct C1 as [C1 | C1]; apply Nat.leb_gt in C1; lia. }
      destruct ((2 * (j * p) + p <=? 2 * (j * p)) && (hi <=? 2 * (j * p) + 2 * p - 1)) eqn:C2.
      { apply andb_true_iff in C2. destruct C2 as [C2 _]. apply Nat.leb_le in C2. lia. }
      cbn [length]. rewrite length_app.
      assert (H1 : length (IndexInterval_reads env fuel c (2 * (j * p))
                             (2 * (j * p) + p - 1) (2 * (2 ^ L - 1 + j) + 1)) <= 1).
      { apply reads_exact_match; rewrite N1; reflexivity. }
      assert (H2 : length (IndexInterval_reads env fuel c (2 * (j * p) + p) hi
                             (2 * (2 ^ L - 1 + j) + 2)) <= 4 * Datatypes.S h).
      { rewrite E2.
        replace (2 * (j * p) + p) with ((2 * j + 1) * p) by lia.
        apply IH; fold p; lia. }
      lia.
Qed.

(** Any query within the node's range reads at most eight nodes per layer:
    once the range straddles both children, the two parts are a query
    ending with the first child and a query starting with the second. *)
Lemma reads_within :
  forall h fuel L j lo hi,
  L + h = k -> 1 <= h -> j < 2 ^ L ->
  j * 2 ^ h <= lo -> lo <= hi -> hi < j * 2 ^ h + 2 ^ h ->
  length (IndexInterval_reads env fuel c lo hi (2 ^ L - 1 + j)) <= 8 * h.
Proof.
  induction h as [| h IH]; intros fuel L j lo hi HL Hh Hj Hlo Hlohi Hhi; [lia |].
  destruct fuel as [| fuel]; [simpl; lia |].
  destruct h as [| h].
  - rewrite IndexInterval_reads_unfold. cbv zeta.
    rewrite (lowest_node env c k Hfilled L j ltac:(lia) Hj). cbn [lo_idx hi_idx min_max].
    change (2 ^ 1) with 2 in *.
    destruct ((2 * j =? lo) && (2 * j + 1 =? hi)) eqn:C0; [simpl; lia |].
    destruct (lo =? hi) eqn:C3; [simpl; lia |].
    apply Nat.eqb_neq in C3. apply andb_false_iff in C0.
    destruct C0 as [C0 | C0]; apply Nat.eqb_neq in C0; lia.
  - at_inner_node L h j Hj.
    destruct ((2 * (j * p) =? lo) && (2 * (j * p) + 2 * p - 1 =? hi)); [simpl; lia |].
    destruct (lo =? hi); [simpl; lia |].
    destruct ((2 * (j * p) <=? lo) && (hi <=? 2 * (j * p) + p - 1)) eqn:C1.
    + apply andb_true_iff in C1. destruct C1 as [C1a C1b]. apply Nat.leb_le in C1a, C1b.
      cbn [length]. rewrite E1.
      assert (H := IH fuel (L + 1) (2 * j) lo hi ltac:(lia) ltac:(lia) ltac:(lia)
                      ltac:(fold p; lia) Hlohi ltac:(fold p; lia)).
      lia.
    + destruct ((2 * (j * p) + p <=? lo) && (hi <=? 2 * (j * p) + 2 * p - 1)) eqn:C2.
      * apply andb_true_iff in C2. destruct C2 as [C2a C2b]. apply Nat.leb_le in C2a, C2b.
        cbn [length]. rewrite E2.
        assert (H := IH fuel (L + 1) (2 * j + 1) lo hi ltac:(lia) ltac:(lia) Hj2
                        ltac:(fold p; lia) Hlohi ltac:(fold p; lia)).
        lia.
      * apply andb_false_iff in C1, C2.
        assert (Hs1 : lo <= 2 * (j * p) + p - 1).
        { destruct C2 as [C2 | C2]; apply Nat.leb_gt in C2; lia. }
        assert (Hs2 : 2 * (j * p) + p <= hi).
        { destruct C1 as [C1 | C1]; apply Nat.leb_gt in C1; lia. }
        cbn [length]. rewrite length_app.
        assert (H1 : length (IndexInterval_reads env fuel c lo (2 * (j * p) + p - 1)
                               (2 * (2 ^ L - 1 + j) + 1)) <= 4 * Datatypes.S h).
        { rewrite E1.
          replace (2 * (j * p) + p - 1) with (2 * j * p + p - 1) by lia.
          apply reads_suffix; fold p; lia. }
        assert (H2 : length (IndexInterval_reads env fuel c (2 * (j * p) + p) hi
                               (2 * (2 ^ L - 1 + j) + 2)) <= 4 * Datatypes.S h).
        { rewrite E2.
          replace (2 * (j * p) + p) with ((2 * j + 1) * p) by lia.
          apply reads_prefix; fold p; lia. }
        lia.
Qed.

End QueryCost.

(** For a curve of [n >= 2] samples an index query with [lo <= hi < n]
    reads at most [8 * CeilingLog2 n] nodes of the tree, whatever the fuel:
    the running time of a query is logarithmic in the number of samples. *)
Theorem index_query_reads_logarithmic {S : Scalar} (env : OutOfRange)
    (xs : list real) (ys : list (option real))
    (c : ExplicitSingleValueCurve2D) (fuel lo hi : nat) :
  new_curve env xs ys = Some c -> 2 <= length ys ->
  lo <= hi -> hi < length ys ->
  length (IndexInterval_reads env fuel c lo hi 0) <= 8 * CeilingLog2 (length ys).
Proof.
  intros Hc Hn Hlohi Hhi.
  destruct (new_curve_tree env xs ys c Hc Hn) as [Hlen Hfilled].
  destruct (new_curve_inv env xs ys c Hc) as (_ & _ & _ & _ & Hy & _).
  set (k := CeilingLog2 (length ys)) in *.
  rewrite <- Hy in Hfilled.
  assert (Hk : 1 <= k) by (apply CeilingLog2_ge_1; exact Hn).
  assert (Hup : length ys <= 2 ^ k) by (apply CeilingLog2_upper; lia).
  apply (reads_within env c k Hfilled k fuel 0 0 lo hi); simpl; lia.
Qed.

Lemma index_query_reads_logarithmic_witness :
  length (@IndexInterval_reads Qc_scalar zeroed_memory_Qc 3 curve_012_Qc 0 2 0)
  <= 8 * CeilingLog2 (length ys_012_Qc).
Proof.
  apply (@index_query_reads_logarithmic Qc_scalar zeroed_memory_Qc
           xs_012_Qc ys_012_Qc curve_012_Qc 3 0 2).
  - vm_compute. reflexivity.
  - simpl. lia.
  - lia.
  - simpl. lia.
Defined.

(** ** The domain query as one scan *)

Section DomainQueryScan.

Context {S : Scalar} {O : ScalarOrder S} (env : OutOfRange).



End DomainQueryScan.

